(** * sqlcc: the migration loader and the apply engine

    A shallow embedding of [ucarion/sqlcc] (Go): the loader
    ([parseMigrations], [parseMigrationName]), the state store
    ([getState], [setState]), the transaction wrapper ([withTx]) and the
    [migrate] command, followed by the properties the specification
    states about them. *)

From Stdlib Require Import ZArith String Ascii List Lia OrdersEx.
From Stdlib Require Import Sorted Permutation.
From stdpp Require Import base list sorting gmap.
From stdpp Require strings.

Import ListNotations.
Local Open Scope string_scope.
Local Open Scope list_scope.
Local Open Scope Z_scope.

(** ** Errors and results *)

(** One constructor per [fmt.Errorf] site of the program; the arguments
    are the values the message is formatted with. *)
Inductive error : Type :=
| ErrMigrationsRequired                     (* "-m/--migrations is required" *)
| ErrDriverRequired                         (* "-D/--driver is required" *)
| ErrInvalidDriver                          (* "invalid -D/--driver: ..." *)
| ErrDSNRequired                            (* "-d/--dsn is required" *)
| ErrStateTableRequired                     (* "-s/--state-table is required" *)
| ErrInvalidRunInTx                         (* "invalid -t/--run-in-transaction: ..." *)
| ErrOpenDB                                 (* "open db: %w" *)
| ErrBeginTx                                (* "begin tx: %w" *)
| ErrRollbackTx                             (* "rollback tx: %w" *)
| ErrCommitTx                               (* "commit tx: %w" *)
| ErrReadMigrationsDir                      (* "read migrations dir: %w" *)
| ErrInvalidName (name : string)            (* "migration name must begin with digits followed by underscore (`_`): %q" *)
| ErrZeroVersion (name : string)            (* "migration version must be nonzero: %q" *)
| ErrDuplicateVersion (name other : string) (* "two migrations for same version: %q, %q" *)
| ErrReadMigrationFile (name : string)      (* "read migration file: %w" *)
| ErrReadState                              (* "read state from db: %w" *)
| ErrWriteState                             (* "write state to db: %w" *)
| ErrDirty                                  (* "state is dirty, will not migrate" *)
| ErrExec (name : string).                  (* "exec %q: %w" *)

(** What a Go call that may also panic ends in. *)
Inductive outcome (A : Type) : Type :=
| Ok (a : A)
| Err (e : error)
| Panic.
Arguments Ok {A} a.
Arguments Err {A} e.
Arguments Panic {A}.

(** ** The Go library functions the loader calls *)

Module Go.

(** Go's [int] has 32 or 64 bits, by platform: 64 here, as on the
    platforms in common use. *)
Definition intSize : Z := 64.
Definition maxInt : Z := 2 ^ (intSize - 1) - 1.

(** [\d] of Go's regexp (RE2 syntax): the ASCII digits only. *)
Definition isDigit (c : ascii) : bool :=
  let n := N_of_ascii c in ((48 <=? n) && (n <=? 57))%N.

Definition digitVal (c : ascii) : Z := Z.of_N (N_of_ascii c) - 48.

Fixpoint allDigits (s : string) : bool :=
  match s with
  | EmptyString => true
  | String c s' => isDigit c && allDigits s'
  end.

Fixpoint decimal (acc : Z) (s : string) : Z :=
  match s with
  | EmptyString => acc
  | String c s' => decimal (10 * acc + digitVal c) s'
  end.

Definition unsignedDecimal (s : string) : option Z :=
  match s with
  | EmptyString => None
  | String _ _ => if allDigits s then Some (decimal 0 s) else None
  end.

(** [strconv.Atoi]: an optional sign and decimal digits; [None] is a
    returned error, either [ErrSyntax] or, when the value does not fit
    [int], [ErrRange]. *)
Definition Atoi (s : string) : option Z :=
  match s with
  | EmptyString => None
  | String c r =>
      if Ascii.eqb c "+" then
        match unsignedDecimal r with
        | Some n => if n <=? maxInt then Some n else None
        | None => None
        end
      else if Ascii.eqb c "-" then
        match unsignedDecimal r with
        | Some n => if n <=? maxInt + 1 then Some (- n) else None
        | None => None
        end
      else
        match unsignedDecimal s with
        | Some n => if n <=? maxInt then Some n else None
        | None => None
        end
  end.

(** [strings.HasPrefix] and [strings.HasSuffix]. *)
Fixpoint HasPrefix (s p : string) {struct p} : bool :=
  match p with
  | EmptyString => true
  | String a p' =>
      match s with
      | String b s' => Ascii.eqb a b && HasPrefix s' p'
      | EmptyString => false
      end
  end.

Definition HasSuffix (s suffix : string) : bool :=
  (String.length suffix <=? String.length s)%nat
  && String.eqb
       (substring (String.length s - String.length suffix)
                  (String.length suffix) s)
       suffix.

(** [sort.Slice]: the result is a permutation of the slice in which
    [less] never holds from a later to an earlier element.  Go does not
    promise stability; the loader sorts pairwise distinct keys only,
    for which the result does not depend on the algorithm (see
    [sortSlice_unique] below), so an insertion sort stands for it. *)
Fixpoint insertSorted {A} (less : A -> A -> bool) (x : A) (l : list A) : list A :=
  match l with
  | [] => [x]
  | y :: l' => if less x y then x :: l else y :: insertSorted less x l'
  end.

Definition sortSlice {A} (less : A -> A -> bool) (l : list A) : list A :=
  fold_right (insertSorted less) [] l.

(** Go's [<] on strings: bytewise lexicographic. *)
Definition stringLess (a b : string) : bool :=
  match String_as_OT.compare a b with
  | Lt => true
  | _ => false
  end.

(** *** The pattern [(\d+)_.*\.sql]

    [regexp.FindStringSubmatch] returns the leftmost match, and among
    the matches starting there the one a backtracking search prefers.
    Only the first submatch, [match[1]], is used by the program, so this
    is what the model returns.  At a given start [\d+] can only end at
    the end of the digit run (every shorter choice is followed by a
    digit, not by [_]); [.] matches every character but a newline; so
    [.*\.sql] matches at a position when [.sql] occurs from there on
    before any newline.  All characters of the pattern are ASCII, so
    matching bytes rather than UTF-8 runes finds the same submatch. *)

Fixpoint spanDigits (s : string) : string * string :=
  match s with
  | EmptyString => (EmptyString, EmptyString)
  | String c s' =>
      if isDigit c
      then let (ds, rest) := spanDigits s' in (String c ds, rest)
      else (EmptyString, s)
  end.

Definition newline : ascii := "010"%char.

(** [.*\.sql] matches a prefix of [s]. *)
Fixpoint matchTail (s : string) : bool :=
  HasPrefix s ".sql"
  || match s with
     | EmptyString => false
     | String c s' => negb (Ascii.eqb c newline) && matchTail s'
     end.

(** The pattern matches a prefix of [s]; the result is the submatch. *)
Definition matchHere (s : string) : option string :=
  match spanDigits s with
  | (String d ds, String c rest) =>
      if Ascii.eqb c "_" && matchTail rest then Some (String d ds) else None
  | _ => None
  end.

Fixpoint FindStringSubmatch (s : string) : option string :=
  match matchHere s with
  | Some ds => Some ds
  | None =>
      match s with
      | EmptyString => None
      | String _ s' => FindStringSubmatch s'
      end
  end.

End Go.

(** ** The loader *)

(** [type migration struct]. *)
Record migration : Type := mkMigration {
  version : Z;
  name : string;
  query : string
}.

(** An entry of the migrations directory as [os.ReadDir] reports it,
    with what [os.ReadFile] gives for it ([None]: the read fails). *)
Record dirEntry : Type := mkDirEntry {
  entryName : string;
  entryIsDir : bool;
  entryContent : option string
}.

(** The directory a path names: [None] when it cannot be read, else its
    entries in the order the operating system holds them. *)
Definition directory : Type := option (list dirEntry).

(** The order of file names. *)
Definition lessName (a b : dirEntry) : bool :=
  Go.stringLess (entryName a) (entryName b).

(** [os.ReadDir] returns the entries sorted by filename. *)
Definition ReadDir (dir : directory) : option (list dirEntry) :=
  match dir with
  | None => None
  | Some entries => Some (Go.sortSlice lessName entries)
  end.

(** [parseMigrationName]; the pattern is [migrationNamePattern]. *)
Definition parseMigrationName (name : string) : outcome Z :=
  match Go.FindStringSubmatch name with
  | None => Err (ErrInvalidName name)
  | Some digits =>
      match Go.Atoi digits with
      | None => Panic
      | Some n => if n =? 0 then Err (ErrZeroVersion name) else Ok n
      end
  end.

(** The first loop of [parseMigrations], over the directory entries,
    filling [migrationsByVersion]. *)
Fixpoint collectMigrations (entries : list dirEntry)
    (migrationsByVersion : gmap Z migration) : outcome (gmap Z migration) :=
  match entries with
  | [] => Ok migrationsByVersion
  | entry :: entries' =>
      if entryIsDir entry then collectMigrations entries' migrationsByVersion
      else
        let fname := entryName entry in
        if negb (Go.HasSuffix fname ".sql")
        then collectMigrations entries' migrationsByVersion
        else
          match parseMigrationName fname with
          | Panic => Panic
          | Err e => Err e
          | Ok v =>
              match migrationsByVersion !! v with
              | Some other => Err (ErrDuplicateVersion fname other.(name))
              | None =>
                  match entryContent entry with
                  | None => Err (ErrReadMigrationFile fname)
                  | Some content =>
                      collectMigrations entries'
                        (<[v := mkMigration v fname content]> migrationsByVersion)
                  end
              end
          end
  end.

(** The [less] function [parseMigrations] gives to [sort.Slice]. *)
Definition lessVersion (a b : migration) : bool :=
  a.(version) <? b.(version).

(** [parseMigrations].  Go iterates over a map in an order that changes
    from run to run: [rangeOrder] is the order of one run, applied to the
    values of the map. *)
Definition parseMigrations (rangeOrder : list migration -> list migration)
    (dir : directory) : outcome (list migration) :=
  match ReadDir dir with
  | None => Err ErrReadMigrationsDir
  | Some entries =>
      match collectMigrations entries ∅ with
      | Panic => Panic
      | Err e => Err e
      | Ok migrationsByVersion =>
          let migrations := rangeOrder (snd <$> map_to_list migrationsByVersion) in
          Ok (Go.sortSlice lessVersion migrations)
      end
  end.

(** A string [.*] matches as a whole. *)
Fixpoint noNewline (s : string) : bool :=
  match s with
  | EmptyString => true
  | String c s' => negb (Ascii.eqb c Go.newline) && noNewline s'
  end.

(** The shape the specification gives for a migration file name,
    [^[0-9]+_.*\.sql$]: written from the specification, to be compared
    with what [parseMigrationName] accepts. *)
Definition specAnchoredShape (name : string) : bool :=
  match Go.spanDigits name with
  | (String _ _, String c rest) =>
      Ascii.eqb c "_" && Go.HasSuffix rest ".sql" && noNewline rest
  | _ => false
  end.

(** Two listings of one directory: the same entries, in any order. *)
Definition sameDirectory (d1 d2 : directory) : Prop :=
  match d1, d2 with
  | Some entries1, Some entries2 => entries1 ≡ₚ entries2
  | None, None => True
  | _, _ => False
  end.

(** A directory holds no two entries of one name. *)
Definition distinctNames (d : directory) : Prop :=
  match d with
  | Some entries => NoDup (map entryName entries)
  | None => True
  end.

(** An order of iteration over a map visits each value once. *)
Definition isRangeOrder (rangeOrder : list migration -> list migration) : Prop :=
  forall l, rangeOrder l ≡ₚ l.

(** ** The database and the state store *)

(** [type state struct]. *)
Record state : Type := mkState {
  state_version : Z;
  state_dirty : bool
}.

(** The database behind the connection: the rows of the state table
    ([None]: there is no such table) and everything else, [userData],
    which the program never looks at. *)
Record database (D : Type) : Type := mkDatabase {
  stateTable : option (list state);
  userData : D
}.
Arguments mkDatabase {D} _ _.
Arguments stateTable {D} _.
Arguments userData {D} _.

(** The statements the program passes to [ExecContext]: [setStateSQL]
    formatted with a state, and the text of a migration file. *)
Inductive statement : Type :=
| UpdateState (s : state)
| Script (text : string).

(** What the program does to the outside, in the order it does it. *)
Inductive event : Type :=
| EvBeginTx
| EvCommit
| EvRollback
| EvQueryRow                      (* QueryRowContext with stateSQL *)
| EvExec (st : statement)         (* ExecContext *)
| EvStdout (line : string)
| EvStderr (line : string).

(** A [queryer], [*sql.DB] or [*sql.Tx]: the database its statements act
    on, and the events so far. *)
Record conn (D : Type) : Type := mkConn {
  store : database D;
  trace : list event
}.
Arguments mkConn {D} _ _.
Arguments store {D} _.
Arguments trace {D} _.

(** What the driver answers to the calls that run no statement
    ([true]: the call returns an error). *)
Record driver : Type := mkDriver {
  openErr : bool;
  beginErr : bool;
  commitErr : bool;
  rollbackErr : bool
}.

(** [type rootArgs struct], [type migrateArgs struct]. *)
Record rootArgs : Type := mkRootArgs {
  Driver : string;
  DSN : string;
  StateTable : string;
  Migrations : string;
  RunInTx : string
}.

Record migrateArgs : Type := mkMigrateArgs {
  RootArgs : rootArgs;
  Force : bool
}.

(** [rootArgs.validate]: [None] is the nil error. *)
Definition validate (a : rootArgs) (noDB : bool) : option error :=
  if String.eqb a.(Migrations) "" then Some ErrMigrationsRequired
  else if noDB then None
  else if negb (String.eqb a.(Driver) "mysql" || String.eqb a.(Driver) "postgres"
                || String.eqb a.(Driver) "sqlite3")
  then (if String.eqb a.(Driver) "" then Some ErrDriverRequired else Some ErrInvalidDriver)
  else if String.eqb a.(DSN) "" then Some ErrDSNRequired
  else if String.eqb a.(StateTable) "" then Some ErrStateTableRequired
  else if negb (String.eqb a.(RunInTx) "" || String.eqb a.(RunInTx) "auto"
                || String.eqb a.(RunInTx) "always" || String.eqb a.(RunInTx) "never")
  then Some ErrInvalidRunInTx
  else None.

(** [rootArgs.runInTx]; the two [panic("unreachable")] are [Panic]. *)
Definition runInTx (a : rootArgs) : outcome bool :=
  if String.eqb a.(RunInTx) "always" then Ok true
  else if String.eqb a.(RunInTx) "never" then Ok false
  else if String.eqb a.(RunInTx) "" || String.eqb a.(RunInTx) "auto" then
    if String.eqb a.(Driver) "mysql" then Ok false
    else if String.eqb a.(Driver) "postgres" || String.eqb a.(Driver) "sqlite3" then Ok true
    else Panic
  else Panic.

Section Engine.

Context {D : Type}.

(** What running the text of a migration file does to the database,
    and whether it succeeds ([true]).  Nothing is assumed of it: a
    script that fails may leave part of its effects behind, and a
    script may touch the state table. *)
Variable execScript : string -> database D -> database D * bool.

(** Computations on a connection that return an [A] or an error. *)
Definition M (A : Type) : Type := conn D -> conn D * outcome A.

Definition ret {A} (a : A) : M A := fun q => (q, Ok a).
Definition fail {A} (e : error) : M A := fun q => (q, Err e).
Definition bind {A B} (m : M A) (k : A -> M B) : M B :=
  fun q =>
    match m q with
    | (q', Ok a) => k a q'
    | (q', Err e) => (q', Err e)
    | (q', Panic) => (q', Panic)
    end.

Definition emit (e : event) (q : conn D) : conn D :=
  mkConn (store q) (trace q ++ [e]).

(** [QueryRowContext] with [stateSQL] followed by [Scan]: the first
    row of the state table; an error when there is no table or no row. *)
Definition QueryRowContext (q : conn D) : conn D * option state :=
  let q := emit EvQueryRow q in
  match stateTable (store q) with
  | Some (row :: _) => (q, Some row)
  | _ => (q, None)
  end.

(** [ExecContext]; [true] is the nil error.  The update has no
    [where]: it sets every row of the table. *)
Definition ExecContext (st : statement) (q : conn D) : conn D * bool :=
  let q := emit (EvExec st) q in
  match st with
  | UpdateState s =>
      match stateTable (store q) with
      | Some rows =>
          (mkConn (mkDatabase (Some (map (fun _ => s) rows)) (userData (store q)))
                  (trace q), true)
      | None => (q, false)
      end
  | Script text =>
      let (db, ok) := execScript text (store q) in
      (mkConn db (trace q), ok)
  end.

(** [fmt.Println], to standard output. *)
Definition Println (line : string) : M unit :=
  fun q => (emit (EvStdout line) q, Ok tt).

(** [getState]. *)
Definition getState : M state :=
  fun q =>
    match QueryRowContext q with
    | (q', Some s) => (q', Ok s)
    | (q', None) => (q', Err ErrReadState)
    end.

(** [setState]. *)
Definition setState (s : state) : M unit :=
  fun q =>
    match ExecContext (UpdateState s) q with
    | (q', true) => (q', Ok tt)
    | (q', false) => (q', Err ErrWriteState)
    end.

Notation "x <- m ;; k" := (bind m (fun x => k))
  (at level 100, m at next level, right associativity).

(** The first loop of the function [migrate] passes to [withTx],
    "advance to first migration after current state": what is left of
    [migrations] from the index [i] it stops at. *)
Fixpoint advance (migrations : list migration) (v : Z) : list migration :=
  match migrations with
  | [] => []
  | m :: rest => if m.(version) <=? v then advance rest v else migrations
  end.

(** Its second loop, "run all migrations thereafter", over what is
    left; [st] is the local variable [state]. *)
Fixpoint runMigrations (force : bool) (pending : list migration) (st : state) : M unit :=
  match pending with
  | [] => ret tt
  | m :: rest =>
      _ <- Println m.(name) ;;
      if force then
        let st1 := mkState st.(state_version) true in
        _ <- setState st1 ;;
        _ <- (fun q =>
                match ExecContext (Script m.(query)) q with
                | (q', true) => (q', Ok tt)
                | (q', false) => (q', Err (ErrExec m.(name)))
                end) ;;
        let st2 := mkState m.(version) false in
        _ <- setState st2 ;;
        runMigrations force rest st2
      else runMigrations force rest st
  end.

(** The function [migrate] passes to [withTx]. *)
Definition migrateFunc (force : bool) (migrations : list migration) : M unit :=
  st <- getState ;;
  if st.(state_dirty) then fail ErrDirty
  else runMigrations force (advance migrations st.(state_version)) st.

(** [withTx] of db.go.  Outside a transaction [f] acts on the
    database itself.  Inside one it acts on the transaction's view of
    it, which becomes the database when [Commit] succeeds and is
    dropped otherwise: the engine's transactions are taken to be
    atomic for every statement run inside them. *)
Definition withTx (drv : driver) (inTx : bool) (f : M unit) : M unit :=
  fun db =>
    if negb inTx then f db
    else
      let db := emit EvBeginTx db in
      if drv.(beginErr) then (db, Err ErrBeginTx)
      else
        match f db with
        | (tx, Err e) =>
            let db' := mkConn (store db) (trace tx ++ [EvRollback]) in
            if drv.(rollbackErr) then (db', Err ErrRollbackTx) else (db', Err e)
        | (tx, Panic) => (mkConn (store db) (trace tx), Panic)
        | (tx, Ok _) =>
            if drv.(commitErr)
            then (mkConn (store db) (trace tx ++ [EvCommit]), Err ErrCommitTx)
            else (mkConn (store tx) (trace tx ++ [EvCommit]), Ok tt)
        end.

(** [rootArgs.withTx]: [sql.Open], then [withTx] with [a.runInTx()]. *)
Definition rootArgs_withTx (drv : driver) (a : rootArgs) (f : M unit) : M unit :=
  fun db =>
    if drv.(openErr) then (db, Err ErrOpenDB)
    else
      match runInTx a with
      | Ok inTx => withTx drv inTx f db
      | Err e => (db, Err e)
      | Panic => (db, Panic)
      end.

(** [migrate], the command.  [fs] gives the directory a path names. *)
Definition migrate (drv : driver) (fs : string -> directory)
    (rangeOrder : list migration -> list migration) (args : migrateArgs) : M unit :=
  fun db =>
    match validate args.(RootArgs) false with
    | Some e => (db, Err e)
    | None =>
        let db :=
          if args.(Force) then db
          else emit (EvStderr "running in dry-run mode because '--force' was not provided") db in
        match parseMigrations rangeOrder (fs args.(RootArgs).(Migrations)) with
        | Panic => (db, Panic)
        | Err e => (db, Err e)
        | Ok migrations =>
            rootArgs_withTx drv args.(RootArgs) (migrateFunc args.(Force) migrations) db
        end
    end.

End Engine.

(** ** What a trace says *)

(** The scripts run, in order. *)
Fixpoint executedScripts (tr : list event) : list string :=
  match tr with
  | [] => []
  | EvExec (Script text) :: tr' => text :: executedScripts tr'
  | _ :: tr' => executedScripts tr'
  end.

(** The states written to the state table, in order. *)
Fixpoint stateWrites (tr : list event) : list state :=
  match tr with
  | [] => []
  | EvExec (UpdateState s) :: tr' => s :: stateWrites tr'
  | _ :: tr' => stateWrites tr'
  end.

(** The lines printed to standard output, in order. *)
Fixpoint printed (tr : list event) : list string :=
  match tr with
  | [] => []
  | EvStdout line :: tr' => line :: printed tr'
  | _ :: tr' => printed tr'
  end.

(** ** Predicates of the statements *)

(** [a] may stand before [b] in a slice sorted by [less]. *)
Definition notAfter {A : Type} (less : A -> A -> bool) (a b : A) : Prop :=
  less b a = false.

(** Every migration is stored under its own version, which is positive. *)
Definition wellKeyed (m : gmap Z migration) : Prop :=
  forall v mg, m !! v = Some mg -> mg.(version) = v /\ 1 <= v.

(** [(\d+)_.*\.sql] matches [s] from the end of [pre] on, with [ds] for
    [(\d+)]. *)
Definition patternMatchAt (s pre ds : string) : Prop :=
  exists mid post,
    s = (pre ++ ds ++ "_" ++ mid ++ ".sql" ++ post)%string
    /\ ds <> EmptyString
    /\ Go.allDigits ds = true
    /\ noNewline mid = true.

(** The pending migrations as the specification defines them: the
    migrations of the set with a version above the one in the state. *)
Definition specPending (migrations : list migration) (v : Z) : list migration :=
  List.filter (fun m => v <? m.(version)) migrations.

(** The events that open or end a transaction. *)
Definition txControl (e : event) : bool :=
  match e with
  | EvBeginTx | EvCommit | EvRollback => true
  | _ => false
  end.

(** The events of a forced run through [pending] in which every call
    succeeds, the state table holding version [v] at the start. *)
Fixpoint forcedEvents (v : Z) (pending : list migration) : list event :=
  match pending with
  | [] => []
  | m :: rest =>
      EvStdout m.(name)
      :: EvExec (UpdateState (mkState v true))
      :: EvExec (Script m.(query))
      :: EvExec (UpdateState (mkState m.(version) false))
      :: forcedEvents m.(version) rest
  end.

(** The migration scripts leave the state table alone. *)
Definition scriptsKeepStateTable {D : Type}
    (execScript : string -> database D -> database D * bool) : Prop :=
  forall text db, stateTable (fst (execScript text db)) = stateTable db.

(** ** A database and a directory for examples *)

Definition file (name content : string) : dirEntry :=
  mkDirEntry name false (Some content).

#[global] Instance dirEntry_eq_dec : EqDecision dirEntry.
Proof. solve_decision. Defined.

(** A database whose user data is the journal of the scripts that ran.
    The script whose text is [fail] fails, after leaving its line. *)
Definition journalExec (text : string) (db : database (list string))
    : database (list string) * bool :=
  (mkDatabase (stateTable db) (userData db ++ [text]), negb (String.eqb text "fail")).

Definition freshDb (v : Z) (dirty : bool) : conn (list string) :=
  mkConn (mkDatabase (Some [mkState v dirty]) []) [].

Definition healthy : driver := mkDriver false false false false.

Definition threeMigrations : list migration :=
  [mkMigration 1 "1_a.sql" "A"; mkMigration 3 "3_b.sql" "B"; mkMigration 7 "7_c.sql" "C"].

Definition brokenMigrations : list migration :=
  [mkMigration 1 "1_a.sql" "A"; mkMigration 3 "3_b.sql" "fail"; mkMigration 7 "7_c.sql" "C"].

Definition exampleDir : directory :=
  Some [file "7_c.sql" "C"; file "001_a.sql" "A"; mkDirEntry "notes.sql" true None;
        file "README.md" ""; file "3_b.sql" "B"].

Definition exampleDirShuffled : directory :=
  Some [file "README.md" ""; file "3_b.sql" "B"; file "001_a.sql" "A";
        file "7_c.sql" "C"; mkDirEntry "notes.sql" true None].

Definition sameOrder (l : list migration) : list migration := l.
Definition reverseOrder (l : list migration) : list migration := rev l.

(** A forced run in a transaction from version 1: versions 3 and 7 are
    pending. *)
Definition forcedRun : conn (list string) * outcome unit :=
  withTx healthy true (migrateFunc journalExec true threeMigrations) (freshDb 1 false).

(** The same forced run on a dirty table. *)
Definition dirtyRun : conn (list string) * outcome unit :=
  withTx healthy true (migrateFunc journalExec true threeMigrations) (freshDb 1 true).

(** A forced run outside a transaction from version 0; the second
    script fails. *)
Definition failedRun : conn (list string) * outcome unit :=
  withTx healthy false (migrateFunc journalExec true brokenMigrations) (freshDb 0 false).

(** The same failing run inside a transaction. *)
Definition rolledBackRun : conn (list string) * outcome unit :=
  withTx healthy true (migrateFunc journalExec true brokenMigrations) (freshDb 0 false).

(** A run without [--force] from version 1. *)
Definition dryRun : conn (list string) * outcome unit :=
  withTx healthy true (migrateFunc journalExec false threeMigrations) (freshDb 1 false).

(** ** The other commands *)

From Stdlib Require Import Decimal DecimalString DecimalZ.

(** The entries [parseMigrations] does not skip: not a directory, and a
    name with the suffix [.sql]. *)
Definition isMigrationFile (entry : dirEntry) : bool :=
  negb (entryIsDir entry) && Go.HasSuffix (entryName entry) ".sql".

(** The migration [parseMigrations] builds from an entry it keeps. *)
Definition loadedFrom (entry : dirEntry) (mg : migration) : Prop :=
  isMigrationFile entry = true
  /\ parseMigrationName (entryName entry) = Ok mg.(version)
  /\ mg.(name) = entryName entry
  /\ entryContent entry = Some mg.(query).

(** The match [regexp.FindStringSubmatch] reports: no match of the
    pattern starts further left. *)
Definition leftmostMatch (s pre ds : string) : Prop :=
  patternMatchAt s pre ds
  /\ forall pre' ds', patternMatchAt s pre' ds' ->
                      (String.length pre <= String.length pre')%nat.

(** A run of the digit [0]. *)
Fixpoint allZeros (s : string) : bool :=
  match s with
  | EmptyString => true
  | String c s' => Ascii.eqb c "0" && allZeros s'
  end.

(** In a trace, every script is run right after the write of a dirty
    state ([armed]: the event before was such a write). *)
Fixpoint scriptsAfterDirty (armed : bool) (tr : list event) : bool :=
  match tr with
  | [] => true
  | EvExec (Script _) :: tr' => armed && scriptsAfterDirty false tr'
  | EvExec (UpdateState s) :: tr' => scriptsAfterDirty s.(state_dirty) tr'
  | _ :: tr' => scriptsAfterDirty false tr'
  end.

(** [type validateArgs struct], [type statusArgs struct],
    [type resetArgs struct]; [Version] is a [uint]. *)
Record validateArgs : Type := mkValidateArgs {
  ValidateRootArgs : rootArgs
}.

Record statusArgs : Type := mkStatusArgs {
  StatusRootArgs : rootArgs
}.

Record resetArgs : Type := mkResetArgs {
  ResetRootArgs : rootArgs;
  Version : Z;
  Dirty : bool
}.

(** The conversion [int(args.Version)] of a [uint] to an [int] of the
    same width: the same bits, read as a signed number. *)
Definition uintToInt (u : Z) : Z :=
  let w := u mod 2 ^ Go.intSize in
  if w <=? Go.maxInt then w else w - 2 ^ Go.intSize.

(** The verb [%d] of [fmt.Printf] on an [int]. *)
Definition formatInt (z : Z) : string :=
  NilEmpty.string_of_int (Z.to_int z).

(** Whether a string is free of closing parentheses, as the decimal
    numbers [formatInt] prints are. *)
Fixpoint noParen (s : string) : bool :=
  match s with
  | EmptyString => true
  | String c s' => negb (Ascii.eqb c ")") && noParen s'
  end.

(** The line [status] prints for a state, without its newline. *)
Definition statusLine (s : state) : string :=
  if s.(state_dirty)
  then (formatInt s.(state_version) ++ " (dirty)")%string
  else formatInt s.(state_version).

(** [validate], the command. *)
Definition validateCommand (fs : string -> directory)
    (rangeOrder : list migration -> list migration) (args : validateArgs)
    : outcome unit :=
  match validate args.(ValidateRootArgs) true with
  | Some e => Err e
  | None =>
      match parseMigrations rangeOrder (fs args.(ValidateRootArgs).(Migrations)) with
      | Ok _ => Ok tt
      | Err e => Err e
      | Panic => Panic
      end
  end.

Section Commands.

Context {D : Type}.
Variable execScript : string -> database D -> database D * bool.

(** [withTx], for a function that also assigns to a variable of its
    caller, as the one [status] passes does: the value assigned is
    returned with the nil error. *)
Definition withTxValue {A : Type} (drv : driver) (inTx : bool)
    (f : conn D -> conn D * outcome A) : conn D -> conn D * outcome A :=
  fun db =>
    if negb inTx then f db
    else
      let db := emit EvBeginTx db in
      if drv.(beginErr) then (db, Err ErrBeginTx)
      else
        match f db with
        | (tx, Err e) =>
            let db' := mkConn (store db) (trace tx ++ [EvRollback]) in
            if drv.(rollbackErr) then (db', Err ErrRollbackTx) else (db', Err e)
        | (tx, Panic) => (mkConn (store db) (trace tx), Panic)
        | (tx, Ok a) =>
            if drv.(commitErr)
            then (mkConn (store db) (trace tx ++ [EvCommit]), Err ErrCommitTx)
            else (mkConn (store tx) (trace tx ++ [EvCommit]), Ok a)
        end.

(** [rootArgs.withTx], likewise. *)
Definition rootArgs_withTxValue {A : Type} (drv : driver) (a : rootArgs)
    (f : conn D -> conn D * outcome A) : conn D -> conn D * outcome A :=
  fun db =>
    if drv.(openErr) then (db, Err ErrOpenDB)
    else
      match runInTx a with
      | Ok inTx => withTxValue drv inTx f db
      | Err e => (db, Err e)
      | Panic => (db, Panic)
      end.

(** [status], the command. *)
Definition status (drv : driver) (args : statusArgs) : conn D -> conn D * outcome unit :=
  fun db =>
    match validate args.(StatusRootArgs) false with
    | Some e => (db, Err e)
    | None =>
        match rootArgs_withTxValue drv args.(StatusRootArgs) getState db with
        | (db', Ok s) => (emit (EvStdout (statusLine s)) db', Ok tt)
        | (db', Err e) => (db', Err e)
        | (db', Panic) => (db', Panic)
        end
    end.

(** [reset], the command. *)
Definition reset (drv : driver) (args : resetArgs) : conn D -> conn D * outcome unit :=
  fun db =>
    match validate args.(ResetRootArgs) false with
    | Some e => (db, Err e)
    | None =>
        rootArgs_withTx drv args.(ResetRootArgs)
          (setState execScript (mkState (uintToInt args.(Version)) args.(Dirty))) db
    end.

End Commands.

(** ** Inputs of the further examples *)

Definition postgresArgs : rootArgs :=
  mkRootArgs "postgres" "postgresql://localhost" "sqlcc" "migrations" "".

Definition mysqlArgs : rootArgs :=
  mkRootArgs "mysql" "root@tcp(127.0.0.1)/" "sqlcc" "migrations" "auto".

(** ** Transactions on an engine of any kind *)

(** How a transaction can end without a [Commit] that succeeded:
    [Rollback] returned nil, [Rollback] returned an error, [Commit]
    returned an error, or [f] panicked and left it open. *)
Inductive ending : Type :=
  | RolledBack
  | RollbackFailed
  | CommitFailed
  | Abandoned.

(** What a database engine makes of such a transaction: the database
    it holds afterwards, given how the transaction ended, the database
    as it was when the transaction was opened and the database as the
    statements of the transaction have made it.  Nothing is assumed of
    it. *)
Record engine (D : Type) : Type := mkEngine {
  notCommitted : ending -> database D -> database D -> database D
}.

Arguments mkEngine {D} _.
Arguments notCommitted {D} _ _ _ _.

(** The transactions of an engine are atomic when one that was not
    committed leaves nothing behind, whatever its statements were. *)
Definition atomicTx {D : Type} (eng : engine D) : Prop :=
  forall (how : ending) (before inside : database D),
    notCommitted eng how before inside = before.

(** [withTx] of db.go on an engine [eng].  The calls are those of
    [withTx]; what the database holds after a transaction that was not
    committed is left to the engine. *)
Definition withTxOn {D : Type} (eng : engine D) (drv : driver) (inTx : bool)
    (f : conn D -> conn D * outcome unit) : conn D -> conn D * outcome unit :=
  fun db =>
    if negb inTx then f db
    else
      let db := emit EvBeginTx db in
      if drv.(beginErr) then (db, Err ErrBeginTx)
      else
        match f db with
        | (tx, Err e) =>
            if drv.(rollbackErr)
            then (mkConn (notCommitted eng RollbackFailed (store db) (store tx))
                    (trace tx ++ [EvRollback]), Err ErrRollbackTx)
            else (mkConn (notCommitted eng RolledBack (store db) (store tx))
                    (trace tx ++ [EvRollback]), Err e)
        | (tx, Panic) =>
            (mkConn (notCommitted eng Abandoned (store db) (store tx)) (trace tx), Panic)
        | (tx, Ok _) =>
            if drv.(commitErr)
            then (mkConn (notCommitted eng CommitFailed (store db) (store tx))
                    (trace tx ++ [EvCommit]), Err ErrCommitTx)
            else (mkConn (store tx) (trace tx ++ [EvCommit]), Ok tt)
        end.

(** [rootArgs.withTx] on an engine [eng]. *)
Definition rootArgs_withTxOn {D : Type} (eng : engine D) (drv : driver) (a : rootArgs)
    (f : conn D -> conn D * outcome unit) : conn D -> conn D * outcome unit :=
  fun db =>
    if drv.(openErr) then (db, Err ErrOpenDB)
    else
      match runInTx a with
      | Ok inTx => withTxOn eng drv inTx f db
      | Err e => (db, Err e)
      | Panic => (db, Panic)
      end.

(** An engine with atomic transactions. *)
Definition atomicEngine {D : Type} : engine D :=
  mkEngine (fun _ before _ => before).

(** An engine on which the statements of the run cannot be rolled
    back: each is committed as it runs, as MySQL does from the first
    statement of a transaction that changes the schema. *)
Definition implicitCommitEngine {D : Type} : engine D :=
  mkEngine (fun _ _ inside => inside).

(** MySQL with [--run-in-transaction always]. *)
Definition mysqlAlwaysArgs : rootArgs :=
  mkRootArgs "mysql" "root@tcp(127.0.0.1)/" "sqlcc" "migrations" "always".

(** The failing run of [rolledBackRun] on the engine with atomic
    transactions. *)
Definition restoredRun : conn (list string) * outcome unit :=
  withTxOn atomicEngine healthy true (migrateFunc journalExec true brokenMigrations)
    (freshDb 0 false).

(** The same run with the arguments [mysqlAlwaysArgs] on the engine
    that commits each statement as it runs. *)
Definition keptRun : conn (list string) * outcome unit :=
  rootArgs_withTxOn implicitCommitEngine healthy mysqlAlwaysArgs
    (migrateFunc journalExec true brokenMigrations) (freshDb 0 false).

(** * Properties *)

(** stdpp keeps [simpl] from unfolding the append of strings. *)
Ltac simpl_append := cbv [String.append]; fold String.append.
Ltac simpl_append_in H := cbv [String.append] in H; fold String.append in H.

(** ** [sort.Slice] *)

Section SortSlice.

Context {A : Type} (less : A -> A -> bool).

Lemma insertSorted_perm (x : A) (l : list A) :
  Go.insertSorted less x l ≡ₚ x :: l.
Proof.
  induction l as [|y l IH]; simpl; [done|].
  destruct (less x y); [done|].
  rewrite IH. apply perm_swap.
Qed.

Lemma sortSlice_perm (l : list A) : Go.sortSlice less l ≡ₚ l.
Proof.
  induction l as [|x l IH]; simpl; [done|].
  fold (Go.sortSlice less l). by rewrite insertSorted_perm, IH.
Qed.

Hypothesis less_asym : forall a b, less a b = true -> less b a = false.

Lemma insertSorted_hd (x y : A) (l : list A) :
  notAfter less y x -> HdRel (notAfter less) y l ->
  HdRel (notAfter less) y (Go.insertSorted less x l).
Proof.
  intros Hyx Hl. destruct l as [|z l]; simpl.
  - by constructor.
  - destruct (less x z); constructor; [done|]. by inversion Hl.
Qed.

Lemma insertSorted_sorted (x : A) (l : list A) :
  Sorted (notAfter less) l -> Sorted (notAfter less) (Go.insertSorted less x l).
Proof.
  induction 1 as [|y l Hl IH Hy]; simpl.
  - repeat constructor.
  - destruct (less x y) eqn:E.
    + constructor; [by constructor|]. constructor. by apply less_asym.
    + constructor; [done|]. by apply insertSorted_hd.
Qed.

Lemma sortSlice_sorted (l : list A) : Sorted (notAfter less) (Go.sortSlice less l).
Proof.
  induction l as [|x l IH]; simpl; [constructor|].
  by apply insertSorted_sorted.
Qed.

Hypothesis notAfter_trans : Transitive (notAfter less).

(** Whatever the algorithm, sorting a slice whose elements are told
    apart by [less] has one result. *)
Lemma sortSlice_unique (l l' : list A) :
  (forall a b, a ∈ l -> b ∈ l -> notAfter less a b -> notAfter less b a -> a = b) ->
  l' ≡ₚ l -> Sorted (notAfter less) l' -> l' = Go.sortSlice less l.
Proof.
  intros Hsep Hperm Hsorted.
  apply (Sorted_unique_strong (notAfter less)); [|done|apply sortSlice_sorted|].
  - intros a b Ha Hb. apply Hsep.
    + by rewrite <- Hperm.
    + by rewrite <- (sortSlice_perm l).
  - by rewrite sortSlice_perm.
Qed.

End SortSlice.

(** ** Orders: file names and versions *)

Lemma stringLess_lt (a b : string) :
  Go.stringLess a b = true <-> String_as_OT.lt a b.
Proof.
  unfold Go.stringLess, String_as_OT.lt.
  destruct (String_as_OT.compare a b); split; congruence.
Qed.

Lemma stringLess_false (a b : string) :
  Go.stringLess b a = false <-> a = b \/ String_as_OT.lt a b.
Proof.
  unfold Go.stringLess.
  destruct (String_as_OT.compare_spec b a) as [E|L|L]; split; try done.
  - intros _. by left.
  - intros [->|L'].
    + by apply (irreflexivity String_as_OT.lt) in L.
    + exfalso. apply (irreflexivity String_as_OT.lt a). by transitivity b.
  - intros _. by right.
Qed.

Lemma lessName_asym (a b : dirEntry) : lessName a b = true -> lessName b a = false.
Proof.
  unfold lessName. rewrite stringLess_lt, stringLess_false. by right.
Qed.

Lemma notAfter_lessName_trans : Transitive (notAfter lessName).
Proof.
  intros a b c. unfold notAfter, lessName. rewrite !stringLess_false.
  intros [->|Hab] [<-|Hbc]; auto.
  right. by transitivity (entryName b).
Qed.

Lemma lessVersion_asym (a b : migration) : lessVersion a b = true -> lessVersion b a = false.
Proof. unfold lessVersion. lia. Qed.

Lemma notAfter_lessVersion (a b : migration) :
  notAfter lessVersion a b <-> a.(version) <= b.(version).
Proof. unfold notAfter, lessVersion. lia. Qed.

Lemma notAfter_lessVersion_trans : Transitive (notAfter lessVersion).
Proof. intros a b c. rewrite !notAfter_lessVersion. lia. Qed.

(** ** The name pattern and [Atoi] *)

Lemma isDigit_digitVal (c : ascii) : Go.isDigit c = true -> 0 <= Go.digitVal c <= 9.
Proof.
  unfold Go.isDigit, Go.digitVal. cbv zeta. intros H.
  apply andb_prop in H as [H1 H2]. apply N.leb_le in H1, H2. lia.
Qed.

Lemma decimal_nonneg (s : string) (acc : Z) :
  Go.allDigits s = true -> 0 <= acc -> 0 <= Go.decimal acc s.
Proof.
  revert acc. induction s as [|c s IH]; simpl; intros acc Hd Hacc; [done|].
  apply andb_prop in Hd as [Hc Hs]. apply isDigit_digitVal in Hc.
  apply IH; [done|lia].
Qed.

Lemma spanDigits_allDigits (s ds rest : string) :
  Go.spanDigits s = (ds, rest) -> Go.allDigits ds = true.
Proof.
  revert ds rest. induction s as [|c s IH]; simpl; intros ds rest H.
  - by inversion H.
  - destruct (Go.isDigit c) eqn:Hc.
    + destruct (Go.spanDigits s) as [ds' rest'] eqn:E. inversion H; subst.
      simpl. rewrite Hc. simpl. by eapply IH.
    + by inversion H.
Qed.

Lemma matchHere_digits (s ds : string) :
  Go.matchHere s = Some ds -> Go.allDigits ds = true /\ ds <> EmptyString.
Proof.
  unfold Go.matchHere. destruct (Go.spanDigits s) as [d rest] eqn:E.
  destruct d as [|c d]; [done|]. destruct rest as [|u rest]; [done|].
  destruct (_ && _); [|done]. intros [= <-]. split; [|done].
  by eapply spanDigits_allDigits.
Qed.

Lemma FindStringSubmatch_digits (s ds : string) :
  Go.FindStringSubmatch s = Some ds -> Go.allDigits ds = true /\ ds <> EmptyString.
Proof.
  induction s as [|c s IH]; cbn [Go.FindStringSubmatch].
  - destruct (Go.matchHere "") eqn:E; [|done]. intros [= <-]. by apply matchHere_digits in E.
  - destruct (Go.matchHere (String c s)) eqn:E; [|done].
    intros [= <-]. by apply matchHere_digits in E.
Qed.

(** On a run of digits [Atoi] fails only by range. *)
Lemma Atoi_digits (ds : string) :
  Go.allDigits ds = true -> ds <> EmptyString ->
  Go.Atoi ds = if Go.decimal 0 ds <=? Go.maxInt then Some (Go.decimal 0 ds) else None.
Proof.
  destruct ds as [|c ds]; [done|]. intros Hd _. unfold Go.Atoi.
  assert (Hc : Go.isDigit c = true) by (simpl in Hd; by apply andb_prop in Hd as [? _]).
  destruct (Ascii.eqb_spec c "+") as [->|_]; [done|].
  destruct (Ascii.eqb_spec c "-") as [->|_]; [done|].
  unfold Go.unsignedDecimal. by rewrite Hd.
Qed.

Lemma parseMigrationName_Ok (nm : string) (v : Z) :
  parseMigrationName nm = Ok v -> 1 <= v <= Go.maxInt.
Proof.
  unfold parseMigrationName.
  destruct (Go.FindStringSubmatch nm) as [ds|] eqn:E; [|done].
  apply FindStringSubmatch_digits in E as [Hd Hne].
  rewrite (Atoi_digits _ Hd Hne).
  destruct (Z.leb_spec (Go.decimal 0 ds) Go.maxInt) as [Hle|]; [|done].
  destruct (Z.eqb_spec (Go.decimal 0 ds) 0) as [|Hnz]; [done|].
  intros [= <-]. pose proof (decimal_nonneg ds 0 Hd). lia.
Qed.

(** ** The pattern, declaratively *)

Lemma HasPrefix_spec (s p : string) :
  Go.HasPrefix s p = true <-> exists post, s = (p ++ post)%string.
Proof.
  revert s. induction p as [|a p IH]; intros s; simpl.
  - split; [|done]. intros _. by exists s.
  - destruct s as [|b s].
    + split; [done|]. by intros [post ?].
    + simpl. destruct (Ascii.eqb_spec a b) as [->|Hne]; simpl.
      * rewrite IH. split; intros [post H]; exists post.
        -- by rewrite H.
        -- by inversion H.
      * split; [done|]. intros [post H]. inversion H. done.
Qed.

Lemma matchTail_spec (s : string) :
  Go.matchTail s = true
  <-> exists mid post, s = (mid ++ ".sql" ++ post)%string /\ noNewline mid = true.
Proof.
  split.
  - induction s as [|c s IH].
    + intros H. vm_compute in H. done.
    + cbn [Go.matchTail]. intros H. apply orb_prop in H as [H|H].
      * apply HasPrefix_spec in H as [post H]. by exists EmptyString, post.
      * apply andb_prop in H as [Hc H]. destruct (IH H) as (mid & post & -> & Hmid).
        exists (String c mid), post. split; [done|]. simpl. by rewrite Hc, Hmid.
  - intros (mid & post & -> & Hmid). induction mid as [|c mid IH].
    + reflexivity.
    + simpl in Hmid. apply andb_prop in Hmid as [Hc Hmid].
      change (Go.matchTail (String c (mid ++ ".sql" ++ post)%string) = true).
      cbn [Go.matchTail]. rewrite Hc, (IH Hmid). simpl. apply orb_true_r.
Qed.

Lemma spanDigits_app (s ds rest : string) :
  Go.spanDigits s = (ds, rest) ->
  s = (ds ++ rest)%string
  /\ match rest with
     | EmptyString => True
     | String c _ => Go.isDigit c = false
     end.
Proof.
  revert ds rest. induction s as [|c s IH]; simpl; intros ds rest H.
  - by inversion H.
  - destruct (Go.isDigit c) eqn:Hc.
    + destruct (Go.spanDigits s) as [ds' rest'] eqn:E. inversion H; subst.
      destruct (IH _ _ eq_refl) as [-> Hrest]. done.
    + inversion H; subst. done.
Qed.

Lemma spanDigits_digits (ds rest : string) :
  Go.allDigits ds = true ->
  match rest with
  | EmptyString => True
  | String c _ => Go.isDigit c = false
  end ->
  Go.spanDigits (ds ++ rest)%string = (ds, rest).
Proof.
  intros Hds Hrest. induction ds as [|c ds IH]; simpl.
  - destruct rest as [|c rest]; [done|]. simpl. by rewrite Hrest.
  - simpl in Hds. apply andb_prop in Hds as [Hc Hds]. by rewrite Hc, (IH Hds).
Qed.

Lemma matchHere_spec (s ds : string) :
  Go.matchHere s = Some ds <-> patternMatchAt s EmptyString ds.
Proof.
  unfold Go.matchHere, patternMatchAt. split.
  - destruct (Go.spanDigits s) as [d rest] eqn:E.
    pose proof (spanDigits_allDigits _ _ _ E) as Hd.
    apply spanDigits_app in E as [-> _].
    destruct d as [|c d]; [done|]. destruct rest as [|u rest]; [done|].
    destruct (Ascii.eqb_spec u "_") as [->|]; [|done]. simpl.
    destruct (Go.matchTail rest) eqn:Et; [|done]. intros [= <-].
    apply matchTail_spec in Et as (mid & post & -> & Hmid).
    by exists mid, post.
  - intros (mid & post & -> & Hne & Hd & Hmid). simpl_append.
    rewrite (spanDigits_digits ds _ Hd); [|done].
    destruct ds as [|c ds]; [done|]. simpl.
    assert (Ht : Go.matchTail (mid ++ ".sql" ++ post)%string = true)
      by (apply matchTail_spec; eauto).
    simpl_append_in Ht. by rewrite Ht.
Qed.

(** [FindStringSubmatch] fails exactly on the strings the pattern
    matches nowhere. *)
Lemma FindStringSubmatch_None (s : string) :
  Go.FindStringSubmatch s = None <-> ~ exists pre ds, patternMatchAt s pre ds.
Proof.
  induction s as [|c s IH]; cbn [Go.FindStringSubmatch].
  - split.
    + intros _ (pre & ds & mid & post & H & Hne & _).
      destruct pre; [|done]. by destruct ds.
    + intros _. reflexivity.
  - destruct (Go.matchHere (String c s)) as [ds|] eqn:E.
    + split; [done|]. intros H. exfalso. apply H.
      exists EmptyString, ds. by apply matchHere_spec.
    + rewrite IH. split; intros H (pre & ds & Hm); apply H.
      * destruct pre as [|c' pre].
        -- apply matchHere_spec in Hm. congruence.
        -- destruct Hm as (mid & post & Hs & Hrest). simpl_append_in Hs.
           inversion Hs; subst. exists pre, ds, mid, post. done.
      * destruct Hm as (mid & post & -> & Hrest).
        exists (String c pre), ds, mid, post. done.
Qed.

(** When it succeeds, it returns the digits of the leftmost match. *)
Lemma FindStringSubmatch_Some (s ds : string) :
  Go.FindStringSubmatch s = Some ds ->
  exists pre,
    patternMatchAt s pre ds
    /\ forall pre' ds', patternMatchAt s pre' ds' ->
                        (String.length pre <= String.length pre')%nat.
Proof.
  induction s as [|c s IH]; cbn [Go.FindStringSubmatch].
  - destruct (Go.matchHere "") eqn:E; [|done]. intros [= <-].
    exists EmptyString. split; [by apply matchHere_spec|]. simpl. lia.
  - destruct (Go.matchHere (String c s)) as [d|] eqn:E.
    + intros [= <-]. exists EmptyString. split; [by apply matchHere_spec|]. simpl. lia.
    + intros H. destruct (IH H) as (pre & (mid & post & -> & Hrest) & Hleft).
      exists (String c pre). split; [by exists mid, post|].
      intros pre' ds' Hm. destruct pre' as [|c' pre'].
      * apply matchHere_spec in Hm. congruence.
      * simpl. destruct Hm as (mid' & post' & Hs & Hrest'). simpl_append_in Hs.
        inversion Hs as [[Hc Hs']].
        assert (patternMatchAt (pre ++ ds ++ "_" ++ mid ++ ".sql" ++ post)%string pre' ds')
          by (by exists mid', post').
        apply Hleft in H0. lia.
Qed.

(** ** The shape of the specification against the pattern *)

Lemma substring_all (s : string) : substring 0 (String.length s) s = s.
Proof. induction s as [|c s IH]; simpl; [done|]. by rewrite IH. Qed.

Lemma substring_suffix (s : string) (n m : nat) :
  (n + m = String.length s)%nat ->
  exists mid, s = (mid ++ substring n m s)%string.
Proof.
  revert n. induction s as [|c s IH]; intros n H.
  - exists EmptyString. simpl in H. assert (n = 0%nat) as -> by lia.
    assert (m = 0%nat) as -> by lia. done.
  - destruct n as [|n].
    + exists EmptyString. simpl in H. subst m.
      change (String c s = substring 0 (String.length (String c s)) (String c s)).
      by rewrite substring_all.
    + simpl in H. destruct (IH n) as [mid Hmid]; [lia|].
      exists (String c mid). simpl_append. simpl. by rewrite <- Hmid.
Qed.

Lemma HasSuffix_spec (s suffix : string) :
  Go.HasSuffix s suffix = true -> exists mid, s = (mid ++ suffix)%string.
Proof.
  unfold Go.HasSuffix. intros H. apply andb_prop in H as [Hlen Heq].
  apply Nat.leb_le in Hlen. apply String.eqb_eq in Heq.
  destruct (substring_suffix s (String.length s - String.length suffix)
              (String.length suffix)) as [mid Hmid]; [lia|].
  exists mid. by rewrite Heq in Hmid.
Qed.

Lemma noNewline_app (a b : string) :
  noNewline (a ++ b)%string = true -> noNewline a = true.
Proof.
  induction a as [|c a IH]; [done|]. simpl_append. simpl.
  intros H. apply andb_prop in H as [Hc H]. by rewrite Hc, IH.
Qed.

(** Every name of the shape the specification gives is accepted by the
    pattern of the program, from its first character on; the converse
    fails (see C7). *)
Lemma specAnchoredShape_accepted (nm : string) :
  specAnchoredShape nm = true ->
  exists ds, Go.matchHere nm = Some ds /\ Go.FindStringSubmatch nm = Some ds.
Proof.
  unfold specAnchoredShape. destruct (Go.spanDigits nm) as [d rest] eqn:E.
  pose proof (spanDigits_allDigits _ _ _ E) as Hd.
  apply spanDigits_app in E as [-> _].
  destruct d as [|c d]; [done|]. destruct rest as [|u rest]; [done|].
  intros H. apply andb_prop in H as [H Hnl]. apply andb_prop in H as [Hu Hsuf].
  apply Ascii.eqb_eq in Hu as ->.
  apply HasSuffix_spec in Hsuf as [mid ->]. apply noNewline_app in Hnl.
  assert (Hm : Go.matchHere (String c d ++ String "_" (mid ++ ".sql"))%string
               = Some (String c d)).
  { apply matchHere_spec. exists mid, EmptyString. simpl_append. done. }
  exists (String c d). split; [done|].
  revert Hm. simpl_append. intros Hm.
  cbn [Go.FindStringSubmatch]. by rewrite Hm.
Qed.

Lemma parseMigrationName_InvalidName (nm other : string) :
  parseMigrationName nm = Err (ErrInvalidName other) -> specAnchoredShape nm = false.
Proof.
  unfold parseMigrationName. intros H.
  destruct (specAnchoredShape nm) eqn:E; [|done].
  apply specAnchoredShape_accepted in E as (ds & _ & Hf). rewrite Hf in H.
  destruct (Go.Atoi ds) as [n|]; [|done]. by destruct (n =? 0).
Qed.

(** [parseMigrationName] panics exactly on the names whose leftmost
    digit run, read in base ten, is above the largest [int]. *)
Lemma parseMigrationName_Panic (nm : string) :
  parseMigrationName nm = Panic
  <-> exists ds, Go.FindStringSubmatch nm = Some ds /\ Go.maxInt < Go.decimal 0 ds.
Proof.
  unfold parseMigrationName.
  destruct (Go.FindStringSubmatch nm) as [ds|] eqn:E.
  - pose proof (FindStringSubmatch_digits _ _ E) as [Hd Hne].
    rewrite (Atoi_digits _ Hd Hne).
    destruct (Z.leb_spec (Go.decimal 0 ds) Go.maxInt) as [Hle|Hgt].
    + split.
      * by destruct (Go.decimal 0 ds =? 0).
      * intros (ds' & [= <-] & Hlt). lia.
    + split; [|done]. intros _. by exists ds.
  - split; [done|]. by intros (ds & ? & _).
Qed.

(** ** The version-keyed map *)

Lemma wellKeyed_empty : wellKeyed ∅.
Proof. intros v mg. by rewrite lookup_empty. Qed.

Lemma collectMigrations_wellKeyed (entries : list dirEntry) (m m' : gmap Z migration) :
  collectMigrations entries m = Ok m' -> wellKeyed m -> wellKeyed m'.
Proof.
  revert m. induction entries as [|entry entries IH]; simpl; intros m H Hm.
  - by inversion H; subst.
  - destruct (entryIsDir entry); [by eapply IH|].
    destruct (negb _); [by eapply IH|].
    destruct (parseMigrationName (entryName entry)) as [v| |] eqn:Ev; try done.
    destruct (m !! v) eqn:El; [done|].
    destruct (entryContent entry) as [content|]; [|done].
    eapply IH; [exact H|].
    intros v' mg. rewrite lookup_insert. destruct (decide (v = v')) as [->|].
    + intros [= <-]. simpl. apply parseMigrationName_Ok in Ev. split; [done|lia].
    + apply Hm.
Qed.

Lemma wellKeyed_versions (m : gmap Z migration) :
  wellKeyed m -> version <$> (snd <$> map_to_list m) = fst <$> map_to_list m.
Proof.
  intros Hm. rewrite <- list_fmap_compose. apply list_fmap_ext.
  intros i [v mg] Hi. simpl.
  apply list_elem_of_lookup_2, elem_of_map_to_list in Hi. by apply Hm in Hi as [-> _].
Qed.

(** A list sorted by [less] on the versions, with no version twice, is
    strictly ascending. *)
Lemma sorted_NoDup_strict (l : list migration) :
  Sorted (notAfter lessVersion) l -> NoDup (version <$> l) ->
  StronglySorted Z.lt (version <$> l).
Proof.
  intros Hs Hnd.
  apply (Sorted.Sorted_StronglySorted notAfter_lessVersion_trans) in Hs.
  induction Hs as [|a l Hs IH Ha]; simpl; [constructor|].
  apply NoDup_cons in Hnd as [Hnotin Hnd].
  constructor; [by apply IH|].
  apply Forall_fmap, Forall_forall. intros b Hb. simpl.
  rewrite Forall_forall in Ha. specialize (Ha b Hb).
  apply notAfter_lessVersion in Ha.
  assert (a.(version) <> b.(version)); [|lia].
  intros E. apply Hnotin. rewrite E. by apply list_elem_of_fmap_2.
Qed.

Lemma NoDup_fmap_elem_inj {A B : Type} (f : A -> B) (l : list A) (a b : A) :
  NoDup (f <$> l) -> a ∈ l -> b ∈ l -> f a = f b -> a = b.
Proof.
  induction l as [|x l IH]; simpl; intros Hnd Ha Hb E.
  - by apply elem_of_nil in Ha.
  - apply NoDup_cons in Hnd as [Hx Hnd].
    apply elem_of_cons in Ha as [->|Ha]; apply elem_of_cons in Hb as [->|Hb]; auto.
    + exfalso. apply Hx. rewrite E. by apply list_elem_of_fmap_2.
    + exfalso. apply Hx. rewrite <- E. by apply list_elem_of_fmap_2.
Qed.

(** [os.ReadDir] gives one listing whatever order the entries are held in. *)
Lemma ReadDir_sameDirectory (d1 d2 : directory) :
  distinctNames d2 -> sameDirectory d1 d2 -> ReadDir d1 = ReadDir d2.
Proof.
  destruct d1 as [l1|], d2 as [l2|]; simpl; try done.
  intros Hnd Hperm. f_equal.
  apply (sortSlice_unique lessName lessName_asym notAfter_lessName_trans).
  - intros a b Ha Hb Hab Hba. apply (NoDup_fmap_elem_inj entryName l2); try done.
    unfold notAfter, lessName in Hab, Hba. apply stringLess_false in Hab, Hba.
    destruct Hab as [|Hab]; [done|]. destruct Hba as [|Hba]; [done|].
    exfalso. apply (irreflexivity String_as_OT.lt (entryName a)).
    by transitivity (entryName b).
  - by rewrite sortSlice_perm.
  - apply sortSlice_sorted, lessName_asym.
Qed.

Lemma wellKeyed_NoDup (m : gmap Z migration) :
  wellKeyed m -> NoDup (version <$> (snd <$> map_to_list m)).
Proof.
  intros Hm. rewrite (wellKeyed_versions m Hm). apply NoDup_fst_map_to_list.
Qed.

(** C8. For every migrations directory that [parseMigrations] loads, the
    list it returns is strictly ascending by version, holds no version
    twice, and every version in it is at least 1; whatever the order in
    which the map is iterated. *)
Theorem parseMigrations_strictly_ascending
    (rangeOrder : list migration -> list migration) (dir : directory)
    (migrations : list migration) :
  isRangeOrder rangeOrder ->
  parseMigrations rangeOrder dir = Ok migrations ->
  StronglySorted Z.lt (map version migrations)
  /\ NoDup (map version migrations)
  /\ Forall (fun m => 1 <= m.(version)) migrations.
Proof.
  intros Horder. unfold parseMigrations.
  destruct (ReadDir dir) as [entries|]; [|done].
  destruct (collectMigrations entries ∅) as [m| |] eqn:Ec; try done.
  intros [= <-].
  pose proof (collectMigrations_wellKeyed _ _ _ Ec wellKeyed_empty) as Hm.
  set (vals := snd <$> map_to_list m).
  assert (Hperm : Go.sortSlice lessVersion (rangeOrder vals) ≡ₚ vals)
    by (by rewrite sortSlice_perm, (Horder vals)).
  assert (Hnd : NoDup (version <$> Go.sortSlice lessVersion (rangeOrder vals)))
    by (rewrite Hperm; by apply wellKeyed_NoDup).
  change (map version ?l) with (version <$> l).
  split; [|split; [done|]].
  - apply sorted_NoDup_strict; [|done]. apply sortSlice_sorted, lessVersion_asym.
  - rewrite Hperm. apply Forall_forall. intros mg Hmg.
    apply list_elem_of_fmap in Hmg as ([v mg'] & -> & Hin). simpl.
    apply elem_of_map_to_list in Hin. by apply Hm in Hin as [-> ?].
Qed.

(** C9. Two calls of [parseMigrations] on the same directory contents
    return the same result, list or error with its file names, whatever
    the order the entries are held in and whatever the two orders of
    iteration over the map. *)
Theorem parseMigrations_deterministic
    (order1 order2 : list migration -> list migration) (dir1 dir2 : directory) :
  isRangeOrder order1 -> isRangeOrder order2 ->
  distinctNames dir2 -> sameDirectory dir1 dir2 ->
  parseMigrations order1 dir1 = parseMigrations order2 dir2.
Proof.
  intros H1 H2 Hnd Hsame. unfold parseMigrations.
  rewrite (ReadDir_sameDirectory dir1 dir2 Hnd Hsame).
  destruct (ReadDir dir2) as [entries|]; [|done].
  destruct (collectMigrations entries ∅) as [m| |] eqn:Ec; try done.
  pose proof (collectMigrations_wellKeyed _ _ _ Ec wellKeyed_empty) as Hm.
  f_equal.
  apply (sortSlice_unique lessVersion lessVersion_asym notAfter_lessVersion_trans).
  - intros a b Ha Hb Hab Hba.
    apply (NoDup_fmap_elem_inj version (order2 (snd <$> map_to_list m))); try done.
    + rewrite (H2 _). by apply wellKeyed_NoDup.
    + apply notAfter_lessVersion in Hab, Hba. lia.
  - by rewrite sortSlice_perm, (H1 _), (H2 _).
  - apply sortSlice_sorted, lessVersion_asym.
Qed.

(** ** Traces *)

Lemma executedScripts_app (t1 t2 : list event) :
  executedScripts (t1 ++ t2) = executedScripts t1 ++ executedScripts t2.
Proof.
  induction t1 as [|e t1 IH]; [done|].
  destruct e as [| | | |[s|text]| |]; simpl; by rewrite ?IH.
Qed.

Lemma stateWrites_app (t1 t2 : list event) :
  stateWrites (t1 ++ t2) = stateWrites t1 ++ stateWrites t2.
Proof.
  induction t1 as [|e t1 IH]; [done|].
  destruct e as [| | | |[s|text]| |]; simpl; by rewrite ?IH.
Qed.

Lemma printed_app (t1 t2 : list event) :
  printed (t1 ++ t2) = printed t1 ++ printed t2.
Proof.
  induction t1 as [|e t1 IH]; [done|].
  destruct e as [| | | |[s|text]| |]; simpl; by rewrite ?IH.
Qed.

Lemma executedScripts_forcedEvents (v : Z) (pending : list migration) :
  executedScripts (forcedEvents v pending) = map query pending.
Proof.
  revert v. induction pending as [|m rest IH]; intros v; simpl; [done|].
  by rewrite IH.
Qed.

Lemma printed_forcedEvents (v : Z) (pending : list migration) :
  printed (forcedEvents v pending) = map name pending.
Proof.
  revert v. induction pending as [|m rest IH]; intros v; simpl; [done|].
  by rewrite IH.
Qed.

Lemma txControl_forcedEvents (v : Z) (pending : list migration) :
  Forall (fun e => txControl e = false) (forcedEvents v pending).
Proof.
  revert v. induction pending as [|m rest IH]; intros v; simpl; [constructor|].
  repeat (constructor; [done|]). apply IH.
Qed.

Lemma last_cons_default {A : Type} (x d : A) (l : list A) :
  List.last (x :: l) d = List.last l x.
Proof.
  revert x d. induction l as [|y l IH]; intros x d; [done|].
  change (List.last (x :: y :: l) d) with (List.last (y :: l) d).
  by rewrite !IH.
Qed.

(** ** The pending migrations *)

Lemma filter_all {A : Type} (f : A -> bool) (l : list A) :
  Forall (fun x => f x = true) l -> List.filter f l = l.
Proof.
  induction 1 as [|x l Hx _ IH]; simpl; [done|]. by rewrite Hx, IH.
Qed.

(** On a list ascending by version, the first loop of [migrate] leaves
    the migrations of a version above [v]. *)
Lemma advance_filter (migrations : list migration) (v : Z) :
  StronglySorted Z.lt (map version migrations) ->
  advance migrations v = List.filter (fun m => v <? m.(version)) migrations.
Proof.
  induction migrations as [|m rest IH]; simpl; [done|].
  intros Hs. inversion Hs as [|? ? Hrest Hm]; subst.
  destruct (Z.leb_spec m.(version) v) as [Hle|Hgt].
  - destruct (Z.ltb_spec v m.(version)); [lia|]. by apply IH.
  - destruct (Z.ltb_spec v m.(version)); [|lia]. f_equal. symmetry.
    apply filter_all. change (map version rest) with (version <$> rest) in Hm.
    rewrite Forall_fmap in Hm. eapply Forall_impl; [exact Hm|].
    simpl. intros m' Hm'. lia.
Qed.

Lemma advance_sorted (migrations : list migration) (v : Z) :
  StronglySorted Z.lt (map version migrations) ->
  StronglySorted Z.lt (map version (advance migrations v)).
Proof.
  induction migrations as [|m rest IH]; simpl; [done|].
  intros Hs. destruct (m.(version) <=? v); [|done].
  apply IH. by inversion Hs.
Qed.

(** ** The state store and the two loops *)

Section EngineFacts.

Context {D : Type} (execScript : string -> database D -> database D * bool).

Lemma getState_row (q : conn D) (s : state) (rows : list state) :
  stateTable (store q) = Some (s :: rows) ->
  getState q = (emit EvQueryRow q, Ok s).
Proof. intros H. unfold getState, QueryRowContext. simpl. by rewrite H. Qed.

Lemma getState_trace (q : conn D) :
  trace (fst (getState q)) = trace q ++ [EvQueryRow]
  /\ store (fst (getState q)) = store q
  /\ snd (getState q) <> Panic.
Proof.
  unfold getState, QueryRowContext. simpl.
  destruct (stateTable (store q)) as [[|row rows]|]; simpl; done.
Qed.

Lemma setState_rows (q : conn D) (s : state) (rows : list state) :
  stateTable (store q) = Some rows ->
  setState execScript s q
  = (mkConn (mkDatabase (Some (map (fun _ => s) rows)) (userData (store q)))
            (trace q ++ [EvExec (UpdateState s)]), Ok tt).
Proof. intros H. unfold setState, ExecContext. simpl. by rewrite H. Qed.

Lemma setState_trace (q : conn D) (s : state) :
  trace (fst (setState execScript s q)) = trace q ++ [EvExec (UpdateState s)]
  /\ snd (setState execScript s q) <> Panic.
Proof.
  unfold setState, ExecContext. simpl.
  destruct (stateTable (store q)); simpl; done.
Qed.

Lemma ExecContext_Script (q : conn D) (text : string) :
  ExecContext execScript (Script text) q
  = (mkConn (fst (execScript text (store q))) (trace q ++ [EvExec (Script text)]),
     snd (execScript text (store q))).
Proof. unfold ExecContext. simpl. by destruct (execScript text (store q)). Qed.

(** Without [--force] the second loop prints the names and does
    nothing else. *)
Lemma runMigrations_dry (pending : list migration) (st : state) (q : conn D) :
  runMigrations execScript false pending st q
  = (mkConn (store q) (trace q ++ map (fun m => EvStdout m.(name)) pending), Ok tt).
Proof.
  revert q. induction pending as [|m rest IH]; intros q; simpl.
  - unfold ret. rewrite app_nil_r. by destruct q.
  - unfold bind, Println. rewrite IH. simpl. by rewrite <- app_assoc.
Qed.

Lemma bind_inv {A B : Type} (m : M A) (k : A -> M B) (q q' : conn D) (r : outcome B) :
  bind m k q = (q', r) ->
  (exists a q1, m q = (q1, Ok a) /\ k a q1 = (q', r))
  \/ (exists e, m q = (q', Err e) /\ r = Err e)
  \/ (m q = (q', Panic) /\ r = Panic).
Proof.
  unfold bind. destruct (m q) as [q1 [a|e|]]; intros H.
  - left. by exists a, q1.
  - right. left. inversion H; subst. by exists e.
  - right. right. by inversion H; subst.
Qed.

(** With [--force], whatever the scripts do: the scripts run are those
    of the first [k] pending migrations, all of them when the loop
    ends without an error; no event of the loop opens or ends a
    transaction; the loop does not panic. *)
Lemma runMigrations_force_prefix (pending : list migration) (st : state)
    (q q' : conn D) (r : outcome unit) :
  runMigrations execScript true pending st q = (q', r) ->
  exists k : nat,
    (k <= length pending)%nat
    /\ executedScripts (trace q') = executedScripts (trace q) ++ map query (take k pending)
    /\ (r = Ok tt -> k = length pending)
    /\ r <> Panic
    /\ exists body,
         trace q' = trace q ++ body /\ Forall (fun e => txControl e = false) body.
Proof.
  revert st q q' r. induction pending as [|m rest IH]; intros st q q' r H.
  - inversion H; subst. exists 0%nat. simpl. rewrite app_nil_r. repeat split; try done.
    exists []. by rewrite app_nil_r.
  - cbn [runMigrations] in H.
    apply bind_inv in H as [([] & q1 & H1 & H)|[(e & H1 & _)|[H1 _]]]; [|done..].
    inversion H1; subst q1; clear H1.
    pose proof (setState_trace (emit (EvStdout m.(name)) q)
                  (mkState st.(state_version) true)) as [Ht2 Hp2].
    apply bind_inv in H as [([] & q2 & H2 & H)|[(e & H2 & ->)|[H2 ->]]];
      rewrite H2 in Ht2, Hp2; simpl in Ht2, Hp2; [| |done];
      rewrite <- app_assoc in Ht2; simpl in Ht2.
    2:{ exists 0%nat. simpl. rewrite Ht2, executedScripts_app. simpl.
        rewrite app_nil_r. repeat split; try done; try lia.
        eexists. split; [done|]. by repeat constructor. }
    apply bind_inv in H as [([] & q3 & H3 & H)|[(e & H3 & ->)|[H3 ->]]];
      rewrite ExecContext_Script in H3;
      destruct (snd (execScript m.(query) (store q2))); inversion H3; subst; clear H3.
    2:{ exists 1%nat. simpl. rewrite Ht2, <- app_assoc, executedScripts_app. simpl.
        rewrite ?take_0. repeat split; try done; try lia.
        eexists. split; [done|]. by repeat constructor. }
    pose proof (setState_trace
                  (mkConn (fst (execScript m.(query) (store q2)))
                          (trace q2 ++ [EvExec (Script m.(query))]))
                  (mkState m.(version) false)) as [Ht4 Hp4].
    apply bind_inv in H as [([] & q4 & H4 & H)|[(e & H4 & ->)|[H4 ->]]];
      rewrite H4 in Ht4, Hp4; simpl in Ht4, Hp4; [| |done];
      rewrite Ht2, <- !app_assoc in Ht4; simpl in Ht4.
    2:{ exists 1%nat. simpl. rewrite Ht4, executedScripts_app. simpl.
        rewrite ?take_0. repeat split; try done; try lia.
        eexists. split; [done|]. by repeat constructor. }
    destruct (IH _ _ _ _ H) as (k & Hk & Hex & Hok & Hnp & body & Hb & Hf).
    exists (S k). simpl. split; [lia|]. split; [|split; [|split; [done|]]].
    + rewrite Hex, Ht4, executedScripts_app. simpl.
      by rewrite <- app_assoc.
    + intros Hr. by rewrite (Hok Hr).
    + eexists. rewrite Hb, Ht4, <- !app_assoc. split; [done|].
      simpl. by repeat (constructor; [done|]).
Qed.

(** With [--force], when the scripts leave the state table alone and
    the table holds the one clean row [st]: either every pending
    migration runs and the table ends at the version of the last one,
    clean; or the script of one of them fails, nothing happens after
    it, and the table is left dirty at the version before it. *)
Lemma runMigrations_force_framed (pending : list migration) (st : state)
    (q q' : conn D) (r : outcome unit) :
  scriptsKeepStateTable execScript ->
  st.(state_dirty) = false ->
  stateTable (store q) = Some [st] ->
  runMigrations execScript true pending st q = (q', r) ->
  match r with
  | Ok _ =>
      trace q' = trace q ++ forcedEvents st.(state_version) pending
      /\ stateTable (store q')
         = Some [mkState (List.last (map version pending) st.(state_version)) false]
  | Err e =>
      exists done m rest,
        pending = done ++ m :: rest
        /\ e = ErrExec m.(name)
        /\ trace q'
           = trace q ++ forcedEvents st.(state_version) done
             ++ [EvStdout m.(name);
                 EvExec (UpdateState
                           (mkState (List.last (map version done) st.(state_version)) true));
                 EvExec (Script m.(query))]
        /\ stateTable (store q')
           = Some [mkState (List.last (map version done) st.(state_version)) true]
        /\ exists d,
             execScript m.(query)
               (mkDatabase
                  (Some [mkState (List.last (map version done) st.(state_version)) true]) d)
             = (store q', false)
  | Panic => False
  end.
Proof.
  intros Hframe. revert st q q' r.
  induction pending as [|m rest IH]; intros st q q' r Hclean Htable H.
  - inversion H; subst. simpl. rewrite app_nil_r. split; [done|].
    rewrite Htable. destruct st as [v d]. simpl in *. by subst.
  - cbn [runMigrations] in H.
    apply bind_inv in H as [([] & q1 & H1 & H)|[(e & H1 & _)|[H1 _]]]; [|done..].
    inversion H1; subst q1; clear H1.
    unfold bind at 1 in H.
    rewrite (setState_rows (emit (EvStdout m.(name)) q) _ [st] Htable) in H.
    unfold bind at 1 in H. rewrite ExecContext_Script in H.
    cbn [store trace userData map emit] in H.
    pose proof (Hframe m.(query)
      (mkDatabase (Some [mkState st.(state_version) true]) (userData (store q)))) as Hfr.
    destruct (execScript m.(query)
      (mkDatabase (Some [mkState st.(state_version) true]) (userData (store q))))
      as [db3 ok3] eqn:E3.
    cbn [fst snd stateTable] in H, Hfr.
    destruct ok3.
    2:{ inversion H; subst. cbn beta iota. exists (@nil migration), m, rest. simpl.
        rewrite <- !app_assoc. repeat split; try done. by eexists. }
    unfold bind at 1 in H.
    rewrite (setState_rows (mkConn db3 _) _ [mkState st.(state_version) true] Hfr) in H.
    cbn [store trace userData map] in H.
    apply IH in H; [|done..].
    cbn [state_version] in H.
    destruct r as [[]|e|]; [| |done].
    + destruct H as [Htr Hst]. split.
      * rewrite Htr. cbn [trace emit forcedEvents]. by rewrite <- !app_assoc.
      * rewrite Hst. cbn [map]. by rewrite last_cons_default.
    + destruct H as (done & m' & rest' & -> & -> & Htr & Hst & Hfail).
      exists (m :: done), m', rest'. cbn [map]. rewrite last_cons_default.
      repeat split; [|done..].
      rewrite Htr. cbn [trace emit forcedEvents]. by rewrite <- !app_assoc.
Qed.

(** The trace is an observation only: neither the database a run
    leaves nor its result depends on the events recorded before it. *)
Lemma runMigrations_trace_irrelevant (force : bool) (pending : list migration)
    (st : state) (q : conn D) (tr : list event) :
  store (fst (runMigrations execScript force pending st q))
  = store (fst (runMigrations execScript force pending st (mkConn (store q) tr)))
  /\ snd (runMigrations execScript force pending st q)
     = snd (runMigrations execScript force pending st (mkConn (store q) tr)).
Proof.
  revert st q tr. induction pending as [|m rest IH]; intros st q tr; [done|].
  destruct force.
  - cbn [runMigrations]. unfold bind, Println, setState, ExecContext, emit.
    cbn [store trace fst snd].
    destruct (stateTable (store q)) as [rows|]; [|done]. cbn [store trace userData].
    destruct (execScript m.(query) _) as [db3 [|]]; [|done].
    cbn [store trace stateTable userData].
    destruct (stateTable db3) as [rows3|]; [|done]. cbn [store trace].
    apply (IH _ (mkConn _ _)).
  - rewrite !runMigrations_dry. done.
Qed.

Lemma migrateFunc_trace_irrelevant (force : bool) (migrations : list migration)
    (q : conn D) (tr : list event) :
  store (fst (migrateFunc execScript force migrations q))
  = store (fst (migrateFunc execScript force migrations (mkConn (store q) tr)))
  /\ snd (migrateFunc execScript force migrations q)
     = snd (migrateFunc execScript force migrations (mkConn (store q) tr)).
Proof.
  unfold migrateFunc, bind, getState, QueryRowContext, emit, fail. cbn [store trace].
  destruct (stateTable (store q)) as [[|s rows]|]; try done.
  destruct s.(state_dirty); [done|].
  apply (runMigrations_trace_irrelevant _ _ _ (mkConn _ _)).
Qed.

(** With [--force], when no script fails and none touches the state
    table, the second loop ends without an error. *)
Lemma runMigrations_force_succeeds (pending : list migration) (st : state)
    (q : conn D) (rows : list state) :
  scriptsKeepStateTable execScript ->
  (forall text db, snd (execScript text db) = true) ->
  stateTable (store q) = Some rows ->
  snd (runMigrations execScript true pending st q) = Ok tt.
Proof.
  intros Hframe Hok. revert st q rows.
  induction pending as [|m rest IH]; intros st q rows Htable; [done|].
  cbn [runMigrations]. unfold bind at 1, Println at 1.
  unfold bind at 1.
  rewrite (setState_rows (emit (EvStdout m.(name)) q) _ rows Htable).
  unfold bind at 1. rewrite ExecContext_Script. cbn [store trace userData emit].
  rewrite Hok. unfold bind at 1.
  erewrite setState_rows; [|cbn [store]; rewrite Hframe; reflexivity].
  eapply IH. reflexivity.
Qed.

(** *** The function [migrate] passes to [withTx] *)

Lemma migrateFunc_dirty (force : bool) (migrations : list migration)
    (q : conn D) (s : state) (rows : list state) :
  stateTable (store q) = Some (s :: rows) ->
  s.(state_dirty) = true ->
  migrateFunc execScript force migrations q = (emit EvQueryRow q, Err ErrDirty).
Proof.
  intros Ht Hd. unfold migrateFunc, bind. rewrite (getState_row q s rows Ht).
  by rewrite Hd.
Qed.

Lemma migrateFunc_clean (force : bool) (migrations : list migration)
    (q : conn D) (s : state) (rows : list state) :
  stateTable (store q) = Some (s :: rows) ->
  s.(state_dirty) = false ->
  migrateFunc execScript force migrations q
  = runMigrations execScript force (advance migrations s.(state_version)) s
      (emit EvQueryRow q).
Proof.
  intros Ht Hd. unfold migrateFunc, bind. rewrite (getState_row q s rows Ht).
  by rewrite Hd.
Qed.

(** When it succeeds with [--force], the state was readable and clean
    and the script of every pending migration has run. *)
Lemma migrateFunc_force_Ok (migrations : list migration) (q q' : conn D) :
  migrateFunc execScript true migrations q = (q', Ok tt) ->
  exists s rows,
    stateTable (store q) = Some (s :: rows)
    /\ s.(state_dirty) = false
    /\ executedScripts (trace q')
       = executedScripts (trace q) ++ map query (advance migrations s.(state_version)).
Proof.
  intros H. destruct (stateTable (store q)) as [[|s rows]|] eqn:Et.
  - unfold migrateFunc, bind, getState, QueryRowContext in H. simpl in H.
    rewrite Et in H. done.
  - exists s, rows. split; [done|]. destruct s.(state_dirty) eqn:Ed.
    + by rewrite (migrateFunc_dirty _ _ q s rows Et Ed) in H.
    + split; [done|]. rewrite (migrateFunc_clean _ _ q s rows Et Ed) in H.
      apply runMigrations_force_prefix in H as (k & _ & Hex & Hk & _).
      rewrite (Hk eq_refl), firstn_all in Hex. rewrite Hex. simpl.
      rewrite executedScripts_app. simpl. by rewrite app_nil_r.
  - unfold migrateFunc, bind, getState, QueryRowContext in H. simpl in H.
    rewrite Et in H. done.
Qed.

(** It does not panic, it begins with the read of the state, and none
    of its events opens or ends a transaction. *)
Lemma migrateFunc_body (force : bool) (migrations : list migration)
    (q q' : conn D) (r : outcome unit) :
  migrateFunc execScript force migrations q = (q', r) ->
  r <> Panic
  /\ exists body,
       trace q' = trace q ++ EvQueryRow :: body
       /\ Forall (fun e => txControl e = false) body.
Proof.
  unfold migrateFunc. intros H.
  pose proof (getState_trace q) as (Ht & _ & Hp).
  apply bind_inv in H as [(s & q1 & H1 & H)|[(e & H1 & ->)|[H1 ->]]];
    rewrite H1 in Ht, Hp; simpl in Ht, Hp; [| |done].
  2:{ split; [done|]. exists []. by rewrite Ht. }
  destruct s.(state_dirty).
  { inversion H; subst. split; [done|]. exists []. by rewrite Ht. }
  destruct force.
  - apply runMigrations_force_prefix in H as (k & _ & _ & _ & Hnp & body & Hb & Hf).
    split; [done|]. exists body. by rewrite Hb, Ht, <- app_assoc.
  - rewrite runMigrations_dry in H. inversion H; subst. split; [done|].
    eexists. simpl. rewrite Ht, <- app_assoc. split; [done|].
    apply Forall_forall. intros e He.
    change (map ?f ?l) with (f <$> l) in He.
    by apply list_elem_of_fmap in He as (m & -> & _).
Qed.

End EngineFacts.

(** ** The apply engine *)

(** A forced run succeeds whenever the state is clean, no script fails
    or touches the state table, and the transaction, if any, can be
    opened and committed. *)
Lemma migrate_force_succeeds {D : Type}
    (execScript : string -> database D -> database D * bool)
    (drv : driver) (inTx : bool) (migrations : list migration)
    (s : state) (rows : list state) (db : conn D) :
  scriptsKeepStateTable execScript ->
  (forall text db, snd (execScript text db) = true) ->
  stateTable (store db) = Some (s :: rows) ->
  s.(state_dirty) = false ->
  inTx = false \/ (drv.(beginErr) = false /\ drv.(commitErr) = false) ->
  snd (withTx drv inTx (migrateFunc execScript true migrations) db) = Ok tt.
Proof.
  intros Hframe Hok Htable Hclean Hdrv. unfold withTx.
  destruct inTx; simpl.
  - destruct Hdrv as [|[-> Hc]]; [done|].
    rewrite (migrateFunc_clean _ _ _ (emit EvBeginTx db) s rows Htable Hclean).
    pose proof (runMigrations_force_succeeds execScript
                  (advance migrations s.(state_version)) s
                  (emit EvQueryRow (emit EvBeginTx db)) (s :: rows) Hframe Hok Htable) as H.
    destruct (runMigrations _ _ _ _ _) as [tx r]. simpl in H. subst r.
    by rewrite Hc.
  - rewrite (migrateFunc_clean _ _ _ db s rows Htable Hclean).
    by apply (runMigrations_force_succeeds execScript _ _ _ (s :: rows)).
Qed.

(** C1. From a clean state at version [V], a forced run over a migration
    set that succeeds has executed the scripts of exactly the migrations
    with a version above [V], in ascending order of version, and leaves
    the state table clean at the version of the last of them ([V] itself
    when there is none); with or without a transaction. *)
Theorem migrate_force_applies_pending {D : Type}
    (execScript : string -> database D -> database D * bool)
    (drv : driver) (inTx : bool) (migrations : list migration) (V : Z)
    (db db' : conn D) :
  scriptsKeepStateTable execScript ->
  StronglySorted Z.lt (map version migrations) ->
  stateTable (store db) = Some [mkState V false] ->
  withTx drv inTx (migrateFunc execScript true migrations) db = (db', Ok tt) ->
  executedScripts (trace db')
  = executedScripts (trace db) ++ map query (specPending migrations V)
  /\ StronglySorted Z.lt (map version (specPending migrations V))
  /\ stateTable (store db')
     = Some [mkState (List.last (map version (specPending migrations V)) V) false].
Proof.
  intros Hframe Hsorted Htable H. unfold specPending.
  rewrite <- (advance_filter migrations V Hsorted).
  split; [|split; [by apply advance_sorted|]].
  - unfold withTx in H. destruct inTx; simpl in H.
    + destruct (beginErr drv); [done|].
      rewrite (migrateFunc_clean _ _ _ (emit EvBeginTx db) _ [] Htable eq_refl) in H.
      destruct (runMigrations _ _ _ _ _) as [tx r] eqn:E.
      apply runMigrations_force_framed in E; [|done..].
      destruct r as [[]|e|]; [|by destruct (rollbackErr drv)|done].
      destruct (commitErr drv); [done|]. inversion H; subst. simpl.
      destruct E as [-> _]. simpl.
      rewrite !executedScripts_app, executedScripts_forcedEvents. simpl.
      by rewrite !app_nil_r.
    + rewrite (migrateFunc_clean _ _ _ _ _ [] Htable eq_refl) in H.
      apply runMigrations_force_framed in H as [-> _]; [|done..]. simpl.
      rewrite !executedScripts_app, executedScripts_forcedEvents. simpl.
      by rewrite !app_nil_r.
  - unfold withTx in H. destruct inTx; simpl in H.
    + destruct (beginErr drv); [done|].
      rewrite (migrateFunc_clean _ _ _ (emit EvBeginTx db) _ [] Htable eq_refl) in H.
      destruct (runMigrations _ _ _ _ _) as [tx r] eqn:E.
      apply runMigrations_force_framed in E; [|done..].
      destruct r as [[]|e|]; [|by destruct (rollbackErr drv)|done].
      destruct (commitErr drv); [done|]. inversion H; subst. simpl.
      by destruct E as [_ ->].
    + rewrite (migrateFunc_clean _ _ _ _ _ [] Htable eq_refl) in H.
      by apply runMigrations_force_framed in H as [_ ->].
Qed.

(** C2. On a state table whose row is dirty, [migrate] fails whatever
    the mode: it runs no script, writes no state and leaves the database
    as it was; the error is the dirty-state error (in a transaction:
    whenever the transaction could be opened and rolled back). *)
Theorem migrate_dirty_guard {D : Type}
    (execScript : string -> database D -> database D * bool)
    (drv : driver) (inTx force : bool) (migrations : list migration)
    (s : state) (rows : list state) (db db' : conn D) (r : outcome unit) :
  stateTable (store db) = Some (s :: rows) ->
  s.(state_dirty) = true ->
  withTx drv inTx (migrateFunc execScript force migrations) db = (db', r) ->
  (exists e, r = Err e)
  /\ (inTx = false \/ (drv.(beginErr) = false /\ drv.(rollbackErr) = false) ->
      r = Err ErrDirty)
  /\ executedScripts (trace db') = executedScripts (trace db)
  /\ stateWrites (trace db') = stateWrites (trace db)
  /\ store db' = store db.
Proof.
  intros Htable Hdirty H. unfold withTx in H. destruct inTx; simpl in H.
  - destruct (beginErr drv) eqn:Eb.
    + inversion H; subst. simpl.
      rewrite executedScripts_app, stateWrites_app. simpl. rewrite !app_nil_r.
      repeat split; eauto. by intros [|[? _]].
    + rewrite (migrateFunc_dirty _ _ _ (emit EvBeginTx db) s rows Htable Hdirty) in H.
      destruct (rollbackErr drv) eqn:Er; inversion H; subst; simpl;
        rewrite !executedScripts_app, !stateWrites_app; simpl; rewrite !app_nil_r;
        repeat split; eauto.
      by intros [|[_ ?]].
  - rewrite (migrateFunc_dirty _ _ _ db s rows Htable Hdirty) in H.
    inversion H; subst. simpl.
    rewrite executedScripts_app, stateWrites_app. simpl. rewrite !app_nil_r.
    repeat split; eauto.
Qed.


(** C5. From a clean state at version [V], a run without [--force]
    prints the name of each pending migration (in a transaction: when
    the transaction could be opened), runs no script, writes no state
    and leaves the database as it was. *)
Theorem migrate_dry_run {D : Type}
    (execScript : string -> database D -> database D * bool)
    (drv : driver) (inTx : bool) (migrations : list migration) (V : Z)
    (db db' : conn D) (r : outcome unit) :
  StronglySorted Z.lt (map version migrations) ->
  stateTable (store db) = Some [mkState V false] ->
  withTx drv inTx (migrateFunc execScript false migrations) db = (db', r) ->
  (inTx = false \/ drv.(beginErr) = false ->
   printed (trace db') = printed (trace db) ++ map name (specPending migrations V))
  /\ executedScripts (trace db') = executedScripts (trace db)
  /\ stateWrites (trace db') = stateWrites (trace db)
  /\ store db' = store db.
Proof.
  intros Hsorted Htable H. unfold specPending.
  rewrite <- (advance_filter migrations V Hsorted).
  assert (Hex : forall l : list migration,
             executedScripts (map (fun m => EvStdout m.(name)) l) = []
             /\ stateWrites (map (fun m => EvStdout m.(name)) l) = []
             /\ printed (map (fun m => EvStdout m.(name)) l) = map name l).
  { induction l as [|m l (IH1 & IH2 & IH3)]; simpl; [done|]. by rewrite IH3. }
  destruct (Hex (advance migrations V)) as (Hex1 & Hex2 & Hex3).
  unfold withTx in H. destruct inTx; simpl in H.
  - destruct (beginErr drv) eqn:Eb.
    + inversion H; subst. simpl.
      rewrite executedScripts_app, stateWrites_app. simpl. rewrite !app_nil_r.
      repeat split; try done. by intros [|].
    + rewrite (migrateFunc_clean _ _ _ (emit EvBeginTx db) _ [] Htable eq_refl) in H.
      rewrite runMigrations_dry in H. simpl in H.
      destruct (commitErr drv); inversion H; subst; simpl;
        rewrite !executedScripts_app, !stateWrites_app, !printed_app, Hex1, Hex2, Hex3;
        simpl; rewrite !app_nil_r; repeat split; done.
  - rewrite (migrateFunc_clean _ _ _ db _ [] Htable eq_refl) in H.
    rewrite runMigrations_dry in H. inversion H; subst. simpl.
    rewrite !executedScripts_app, !stateWrites_app, !printed_app, Hex1, Hex2, Hex3.
    simpl. rewrite !app_nil_r. repeat split; done.
Qed.

(** On an engine with atomic transactions [withTxOn] is [withTx]. *)
Lemma withTxOn_atomic {D : Type} (eng : engine D) (drv : driver) (inTx : bool)
    (f : conn D -> conn D * outcome unit) (db : conn D) :
  atomicTx eng -> withTxOn eng drv inTx f db = withTx drv inTx f db.
Proof.
  intros Ha. unfold withTxOn, withTx. destruct inTx; simpl; [|done].
  destruct (beginErr drv); [done|].
  destruct (f (emit EvBeginTx db)) as [tx [[]|e|]]; rewrite ?Ha; done.
Qed.


(** C6, as the program has it. [migrate] returns an error or nil and no
    count.  The scripts it executes are those of the first [k] pending
    migrations: none without [--force]; with it, all of them when the
    call succeeds, and between none and all when it fails. *)
Theorem migrate_applied_count {D : Type}
    (execScript : string -> database D -> database D * bool)
    (drv : driver) (inTx force : bool) (migrations : list migration)
    (s : state) (rows : list state) (db db' : conn D) (r : outcome unit) :
  StronglySorted Z.lt (map version migrations) ->
  stateTable (store db) = Some (s :: rows) ->
  withTx drv inTx (migrateFunc execScript force migrations) db = (db', r) ->
  exists k : nat,
    (k <= length (specPending migrations s.(state_version)))%nat
    /\ executedScripts (trace db')
       = executedScripts (trace db)
         ++ map query (take k (specPending migrations s.(state_version)))
    /\ (force = false -> k = 0%nat)
    /\ (force = true -> r = Ok tt ->
        k = length (specPending migrations s.(state_version))).
Proof.
  intros Hsorted Htable H. unfold specPending.
  rewrite <- (advance_filter migrations _ Hsorted).
  set (pending := advance migrations s.(state_version)).
  assert (Hinner : forall q q' r',
    stateTable (store q) = Some (s :: rows) ->
    migrateFunc execScript force migrations q = (q', r') ->
    exists k : nat,
      (k <= length pending)%nat
      /\ executedScripts (trace q') = executedScripts (trace q) ++ map query (take k pending)
      /\ (force = false -> k = 0%nat)
      /\ (force = true -> r' = Ok tt -> k = length pending)).
  { intros q q' r' Hq Hrun. destruct s.(state_dirty) eqn:Ed.
    - rewrite (migrateFunc_dirty _ _ _ q s rows Hq Ed) in Hrun. inversion Hrun; subst.
      exists 0%nat. simpl. rewrite executedScripts_app. simpl. rewrite ?take_0.
      repeat split; try done; lia.
    - rewrite (migrateFunc_clean _ _ _ q s rows Hq Ed) in Hrun. fold pending in Hrun.
      destruct force.
      + apply runMigrations_force_prefix in Hrun as (k & Hk & Hex & Hok & _).
        exists k. simpl in Hex. rewrite executedScripts_app in Hex. simpl in Hex.
        rewrite app_nil_r in Hex. repeat split; auto; done.
      + rewrite runMigrations_dry in Hrun. inversion Hrun; subst.
        exists 0%nat. simpl. rewrite !executedScripts_app. simpl. rewrite ?take_0.
        assert (Hno : forall l : list migration,
                  executedScripts (map (fun m => EvStdout m.(name)) l) = [])
          by (induction l; simpl; done).
        rewrite Hno, !app_nil_r. repeat split; try done; lia. }
  unfold withTx in H. destruct inTx; simpl in H.
  - destruct (beginErr drv).
    + inversion H; subst. exists 0%nat. simpl. rewrite executedScripts_app. simpl.
      rewrite ?take_0. repeat split; try done; lia.
    + destruct (migrateFunc execScript force migrations (emit EvBeginTx db))
        as [tx r1] eqn:E.
      apply Hinner in E as (k & Hk & Hex & Hdry & Hok); [|done].
      simpl in Hex. rewrite executedScripts_app in Hex. simpl in Hex.
      rewrite app_nil_r in Hex.
      exists k. destruct r1 as [[]|e|].
      * destruct (commitErr drv); inversion H; subst; simpl;
          rewrite executedScripts_app, Hex; simpl; rewrite app_nil_r;
          repeat split; auto; done.
      * destruct (rollbackErr drv); inversion H; subst; simpl;
          rewrite executedScripts_app, Hex; simpl; rewrite app_nil_r;
          repeat split; auto; done.
      * inversion H; subst. simpl. rewrite Hex. repeat split; auto; done.
  - by apply Hinner in H.
Qed.

(** ** The command *)

Lemma validate_runInTx (a : rootArgs) :
  validate a false = None -> exists inTx, runInTx a = Ok inTx.
Proof.
  unfold validate, runInTx.
  destruct (String.eqb a.(Migrations) ""); [done|].
  destruct (String.eqb a.(Driver) "mysql") eqn:E1;
    destruct (String.eqb a.(Driver) "postgres") eqn:E2;
    destruct (String.eqb a.(Driver) "sqlite3") eqn:E3; simpl;
    try (destruct (String.eqb a.(Driver) ""); done);
    (destruct (String.eqb a.(DSN) ""); [done|]);
    (destruct (String.eqb a.(StateTable) ""); [done|]);
    destruct (String.eqb a.(RunInTx) "") eqn:E4;
    destruct (String.eqb a.(RunInTx) "auto") eqn:E5;
    destruct (String.eqb a.(RunInTx) "always") eqn:E6;
    destruct (String.eqb a.(RunInTx) "never") eqn:E7; simpl; try done; eauto.
Qed.

(** The migration sets [migrate] works on are strictly ascending. *)
Lemma parseMigrations_sorted
    (rangeOrder : list migration -> list migration) (dir : directory)
    (migrations : list migration) :
  isRangeOrder rangeOrder ->
  parseMigrations rangeOrder dir = Ok migrations ->
  StronglySorted Z.lt (map version migrations).
Proof.
  intros Horder. unfold parseMigrations.
  destruct (ReadDir dir) as [entries|]; [|done].
  destruct (collectMigrations entries ∅) as [m| |] eqn:Ec; try done.
  intros [= <-].
  apply sorted_NoDup_strict; [apply sortSlice_sorted, lessVersion_asym|].
  rewrite sortSlice_perm, (Horder _).
  apply wellKeyed_NoDup, (collectMigrations_wellKeyed _ _ _ Ec wellKeyed_empty).
Qed.

(** Once the arguments are valid, the directory loads and the database
    opens, [migrate] is [withTx] around the function it builds, on a
    strictly ascending migration set. *)
Lemma migrate_withTx {D : Type}
    (execScript : string -> database D -> database D * bool)
    (drv : driver) (fs : string -> directory)
    (rangeOrder : list migration -> list migration) (args : migrateArgs)
    (migrations : list migration) (db : conn D) :
  isRangeOrder rangeOrder ->
  validate args.(RootArgs) false = None ->
  parseMigrations rangeOrder (fs args.(RootArgs).(Migrations)) = Ok migrations ->
  drv.(openErr) = false ->
  StronglySorted Z.lt (map version migrations)
  /\ exists inTx,
       runInTx args.(RootArgs) = Ok inTx
       /\ migrate execScript drv fs rangeOrder args db
          = withTx drv inTx (migrateFunc execScript args.(Force) migrations)
              (if args.(Force) then db
               else emit (EvStderr "running in dry-run mode because '--force' was not provided")
                      db).
Proof.
  intros Horder Hv Hp Ho. split; [by eapply parseMigrations_sorted|].
  destruct (validate_runInTx _ Hv) as [inTx Hr].
  exists inTx. split; [done|].
  unfold migrate, rootArgs_withTx. by rewrite Hv, Hp, Ho, Hr.
Qed.

(** ** Examples *)

Example forcedRun_result :
  forcedRun
  = (mkConn (mkDatabase (Some [mkState 7 false]) ["B"; "C"])
       [EvBeginTx; EvQueryRow;
        EvStdout "3_b.sql"; EvExec (UpdateState (mkState 1 true)); EvExec (Script "B");
        EvExec (UpdateState (mkState 3 false));
        EvStdout "7_c.sql"; EvExec (UpdateState (mkState 3 true)); EvExec (Script "C");
        EvExec (UpdateState (mkState 7 false)); EvCommit], Ok tt).
Proof. vm_compute. reflexivity. Qed.

Lemma migrate_force_applies_pending_witness :
  snd forcedRun = Ok tt
  /\ executedScripts (trace (fst forcedRun))
     = executedScripts (trace (freshDb 1 false)) ++ map query (specPending threeMigrations 1)
  /\ StronglySorted Z.lt (map version (specPending threeMigrations 1))
  /\ stateTable (store (fst forcedRun))
     = Some [mkState (List.last (map version (specPending threeMigrations 1)) 1) false].
Proof.
  split; [vm_compute; reflexivity|].
  apply (migrate_force_applies_pending journalExec healthy true threeMigrations 1
           (freshDb 1 false)).
  - intros text db. reflexivity.
  - repeat constructor.
  - reflexivity.
  - vm_compute. reflexivity.
Defined.

Lemma migrate_dirty_guard_witness :
  (exists e, snd dirtyRun = Err e)
  /\ (true = false \/ (healthy.(beginErr) = false /\ healthy.(rollbackErr) = false) ->
      snd dirtyRun = Err ErrDirty)
  /\ executedScripts (trace (fst dirtyRun)) = executedScripts (trace (freshDb 1 true))
  /\ stateWrites (trace (fst dirtyRun)) = stateWrites (trace (freshDb 1 true))
  /\ store (fst dirtyRun) = store (freshDb 1 true).
Proof.
  apply (migrate_dirty_guard journalExec healthy true true threeMigrations
           (mkState 1 true) [] (freshDb 1 true)).
  - reflexivity.
  - reflexivity.
  - vm_compute. reflexivity.
Defined.

Example failedRun_result :
  failedRun
  = (mkConn (mkDatabase (Some [mkState 1 true]) ["A"; "fail"])
       [EvQueryRow;
        EvStdout "1_a.sql"; EvExec (UpdateState (mkState 0 true)); EvExec (Script "A");
        EvExec (UpdateState (mkState 1 false));
        EvStdout "3_b.sql"; EvExec (UpdateState (mkState 1 true)); EvExec (Script "fail")],
     Err (ErrExec "3_b.sql")).
Proof. vm_compute. reflexivity. Qed.


Example rolledBackRun_result :
  rolledBackRun
  = (mkConn (mkDatabase (Some [mkState 0 false]) [])
       [EvBeginTx; EvQueryRow;
        EvStdout "1_a.sql"; EvExec (UpdateState (mkState 0 true)); EvExec (Script "A");
        EvExec (UpdateState (mkState 1 false));
        EvStdout "3_b.sql"; EvExec (UpdateState (mkState 1 true)); EvExec (Script "fail");
        EvRollback],
     Err (ErrExec "3_b.sql")).
Proof. vm_compute. reflexivity. Qed.

Example restoredRun_result :
  restoredRun
  = (mkConn (mkDatabase (Some [mkState 0 false]) [])
       [EvBeginTx; EvQueryRow;
        EvStdout "1_a.sql"; EvExec (UpdateState (mkState 0 true)); EvExec (Script "A");
        EvExec (UpdateState (mkState 1 false));
        EvStdout "3_b.sql"; EvExec (UpdateState (mkState 1 true)); EvExec (Script "fail");
        EvRollback],
     Err (ErrExec "3_b.sql")).
Proof. vm_compute. reflexivity. Qed.


Example keptRun_result :
  keptRun
  = (mkConn (mkDatabase (Some [mkState 1 true]) ["A"; "fail"])
       [EvBeginTx; EvQueryRow;
        EvStdout "1_a.sql"; EvExec (UpdateState (mkState 0 true)); EvExec (Script "A");
        EvExec (UpdateState (mkState 1 false));
        EvStdout "3_b.sql"; EvExec (UpdateState (mkState 1 true)); EvExec (Script "fail");
        EvRollback],
     Err (ErrExec "3_b.sql")).
Proof. vm_compute. reflexivity. Qed.


Example dryRun_result :
  dryRun
  = (mkConn (mkDatabase (Some [mkState 1 false]) [])
       [EvBeginTx; EvQueryRow; EvStdout "3_b.sql"; EvStdout "7_c.sql"; EvCommit], Ok tt).
Proof. vm_compute. reflexivity. Qed.

Lemma migrate_dry_run_witness :
  (true = false \/ healthy.(beginErr) = false ->
   printed (trace (fst dryRun))
   = printed (trace (freshDb 1 false)) ++ map name (specPending threeMigrations 1))
  /\ executedScripts (trace (fst dryRun)) = executedScripts (trace (freshDb 1 false))
  /\ stateWrites (trace (fst dryRun)) = stateWrites (trace (freshDb 1 false))
  /\ store (fst dryRun) = store (freshDb 1 false).
Proof.
  apply (migrate_dry_run journalExec healthy true threeMigrations 1
           (freshDb 1 false) (fst dryRun) (snd dryRun)).
  - repeat constructor.
  - reflexivity.
  - vm_compute. reflexivity.
Defined.

Lemma migrate_applied_count_witness :
  exists k : nat,
    (k <= length (specPending brokenMigrations 0))%nat
    /\ executedScripts (trace (fst failedRun))
       = executedScripts (trace (freshDb 0 false))
         ++ map query (take k (specPending brokenMigrations 0))
    /\ (true = false -> k = 0%nat)
    /\ (true = true -> snd failedRun = Ok tt ->
        k = length (specPending brokenMigrations 0)).
Proof.
  apply (migrate_applied_count journalExec healthy false true brokenMigrations
           (mkState 0 false) [] (freshDb 0 false)).
  - repeat constructor.
  - reflexivity.
  - vm_compute. reflexivity.
Defined.

(** C6, as the specification has it, fails: no reading of the value
    [migrate] returns gives the number of migrations applied, since a
    forced run that applies none and one that applies three return the
    same value. *)
Lemma migrate_returns_no_count :
  ~ exists countOf : outcome unit -> nat,
      forall (migrations : list migration) (db' : conn (list string)) (r : outcome unit),
        withTx healthy false (migrateFunc journalExec true migrations) (freshDb 0 false)
        = (db', r) ->
        r = Ok tt ->
        countOf r = length (executedScripts (trace db')).
Proof.
  intros [countOf H].
  pose proof (H [] _ _ eq_refl eq_refl) as H0.
  pose proof (H threeMigrations _ _ eq_refl eq_refl) as H3.
  vm_compute in H0, H3. congruence.
Qed.

Example parseMigrations_exampleDir :
  parseMigrations reverseOrder exampleDir
  = Ok [mkMigration 1 "001_a.sql" "A"; mkMigration 3 "3_b.sql" "B";
        mkMigration 7 "7_c.sql" "C"].
Proof. vm_compute. reflexivity. Qed.

Lemma parseMigrations_strictly_ascending_witness :
  StronglySorted Z.lt
    (map version [mkMigration 1 "001_a.sql" "A"; mkMigration 3 "3_b.sql" "B";
                  mkMigration 7 "7_c.sql" "C"])
  /\ NoDup (map version [mkMigration 1 "001_a.sql" "A"; mkMigration 3 "3_b.sql" "B";
                         mkMigration 7 "7_c.sql" "C"])
  /\ Forall (fun m => 1 <= m.(version))
       [mkMigration 1 "001_a.sql" "A"; mkMigration 3 "3_b.sql" "B";
        mkMigration 7 "7_c.sql" "C"].
Proof.
  apply (parseMigrations_strictly_ascending reverseOrder exampleDir).
  - intros l. symmetry. apply Permutation_rev.
  - vm_compute. reflexivity.
Defined.

Lemma parseMigrations_deterministic_witness :
  parseMigrations sameOrder exampleDir = parseMigrations reverseOrder exampleDirShuffled.
Proof.
  apply (parseMigrations_deterministic sameOrder reverseOrder exampleDir exampleDirShuffled).
  - intros l. reflexivity.
  - intros l. symmetry. apply Permutation_rev.
  - unfold distinctNames, exampleDirShuffled.
    apply (bool_decide_unpack _). vm_compute. exact I.
  - unfold sameDirectory, exampleDir, exampleDirShuffled.
    apply (bool_decide_unpack _). vm_compute. exact I.
Defined.

(** Two files of one version: the error names the later file name
    first, in both listings. *)
Example parseMigrations_duplicate :
  parseMigrations sameOrder (Some [file "2_b.sql" "B"; file "02_a.sql" "A"])
  = Err (ErrDuplicateVersion "2_b.sql" "02_a.sql")
  /\ parseMigrations reverseOrder (Some [file "02_a.sql" "A"; file "2_b.sql" "B"])
     = Err (ErrDuplicateVersion "2_b.sql" "02_a.sql").
Proof. split; vm_compute; reflexivity. Qed.

(** C7. The file name [x1_a.sql] does not have the shape
    [^[0-9]+_.*\.sql$], yet [parseMigrations] loads it, as version 1:
    the pattern of [parseMigrationName] is not anchored, while its error
    message and the manual ask for names that begin with digits. *)
Theorem parseMigrations_accepts_unanchored_name :
  specAnchoredShape "x1_a.sql" = false
  /\ parseMigrations sameOrder (Some [file "x1_a.sql" "select 1"])
     = Ok [mkMigration 1 "x1_a.sql" "select 1"].
Proof. split; vm_compute; reflexivity. Qed.

(** C10. On a file whose digit run does not fit [int],
    [parseMigrations] panics: [strconv.Atoi] returns a range error and
    [parseMigrationName] passes it to [panic]. *)
Theorem parseMigrations_panics_on_overflow :
  parseMigrations sameOrder (Some [file "9223372036854775808_a.sql" "select 1"]) = Panic.
Proof. vm_compute. reflexivity. Qed.

(** * Further properties *)

(** ** [parseMigrationName] *)

Lemma append_inv_head (pre a b : string) :
  (pre ++ a)%string = (pre ++ b)%string -> a = b.
Proof.
  induction pre as [|c pre IH]; [done|]. simpl_append. intros [= H]. by apply IH.
Qed.

Lemma append_same_length (p1 p2 r1 r2 : string) :
  (p1 ++ r1)%string = (p2 ++ r2)%string ->
  String.length p1 = String.length p2 -> p1 = p2.
Proof.
  revert p2. induction p1 as [|c p1 IH]; intros [|c2 p2]; simpl; try done.
  simpl_append. intros [= -> H] [= Hl]. f_equal. by apply IH.
Qed.

Lemma patternMatchAt_unique (s pre ds1 ds2 : string) :
  patternMatchAt s pre ds1 -> patternMatchAt s pre ds2 -> ds1 = ds2.
Proof.
  intros (mid1 & post1 & -> & _ & Hd1 & _) (mid2 & post2 & H & _ & Hd2 & _).
  apply append_inv_head in H. revert H. simpl_append. intros H.
  assert (Hs : Go.spanDigits (ds1 ++ String "_" (mid1 ++ String "." (String "s" (String "q" (String "l" post1)))))%string
               = Go.spanDigits (ds2 ++ String "_" (mid2 ++ String "." (String "s" (String "q" (String "l" post2)))))%string)
    by (by rewrite H).
  rewrite (spanDigits_digits ds1 _ Hd1) in Hs; [|done].
  rewrite (spanDigits_digits ds2 _ Hd2) in Hs; [|done].
  by inversion Hs.
Qed.

(** [FindStringSubmatch] returns the digits of the leftmost match, and
    only them. *)
Lemma FindStringSubmatch_leftmost (s ds : string) :
  Go.FindStringSubmatch s = Some ds <-> exists pre, leftmostMatch s pre ds.
Proof.
  split; [apply FindStringSubmatch_Some|].
  intros (pre & Hm & Hleft).
  destruct (Go.FindStringSubmatch s) as [ds0|] eqn:E.
  - apply FindStringSubmatch_Some in E as (pre0 & Hm0 & Hleft0).
    assert (Hlen : String.length pre0 = String.length pre).
    { apply Hleft in Hm0. apply Hleft0 in Hm. lia. }
    assert (pre0 = pre) as ->.
    { destruct Hm0 as (? & ? & H0 & _), Hm as (? & ? & H1 & _).
      rewrite H0 in H1. by eapply append_same_length. }
    f_equal. by eapply patternMatchAt_unique.
  - apply FindStringSubmatch_None in E. exfalso. apply E. by exists pre, ds.
Qed.

Lemma decimal_zero (s : string) (acc : Z) :
  Go.allDigits s = true -> 0 <= acc ->
  Go.decimal acc s = 0 <-> acc = 0 /\ allZeros s = true.
Proof.
  revert acc. induction s as [|c s IH]; simpl; intros acc Hd Hacc.
  - split; [done|]. by intros [-> _].
  - apply andb_prop in Hd as [Hc Hs].
    pose proof (isDigit_digitVal c Hc) as Hv.
    rewrite (IH _ Hs); [|lia]. rewrite andb_true_iff.
    assert (Hz : Go.digitVal c = 0 <-> Ascii.eqb c "0" = true).
    { rewrite Ascii.eqb_eq. unfold Go.digitVal. split.
      - intros H. rewrite <- (ascii_N_embedding c).
        replace (N_of_ascii c) with 48%N by lia. reflexivity.
      - by intros ->. }
    rewrite <- Hz. split; [intros [? ?]|intros [-> [? ?]]]; repeat split; try done; lia.
Qed.

(** X1. The version [parseMigrationName] returns is the value, in base
    ten, of the digits of the leftmost match of the pattern in the name,
    leading zeros and all; it lies between 1 and the largest [int]. *)
Theorem parseMigrationName_value (nm : string) (v : Z) :
  parseMigrationName nm = Ok v ->
  exists pre ds,
    leftmostMatch nm pre ds /\ v = Go.decimal 0 ds /\ 1 <= v <= Go.maxInt.
Proof.
  intros H. pose proof (parseMigrationName_Ok _ _ H) as Hrange.
  unfold parseMigrationName in H.
  destruct (Go.FindStringSubmatch nm) as [ds|] eqn:E; [|done].
  pose proof (FindStringSubmatch_digits _ _ E) as [Hd Hne].
  rewrite (Atoi_digits _ Hd Hne) in H.
  apply FindStringSubmatch_leftmost in E as [pre Hpre].
  exists pre, ds. split; [done|]. split; [|done].
  destruct (Go.decimal 0 ds <=? Go.maxInt); [|done].
  destruct (Go.decimal 0 ds =? 0); [done|]. by inversion H.
Qed.

(** X2. [parseMigrationName] answers that the name is invalid exactly
    when the pattern matches nowhere in the name: no run of digits is
    followed by an underscore and, later on the same line, by [.sql]. *)
Theorem parseMigrationName_invalid_iff (nm : string) :
  parseMigrationName nm = Err (ErrInvalidName nm)
  <-> ~ exists pre ds, patternMatchAt nm pre ds.
Proof.
  rewrite <- FindStringSubmatch_None. unfold parseMigrationName.
  destruct (Go.FindStringSubmatch nm) as [ds|]; [|done].
  split; [|done]. destruct (Go.Atoi ds) as [n|]; [|done]. by destruct (n =? 0).
Qed.

(** X3. [parseMigrationName] answers that the version is zero exactly
    when the digits of the leftmost match are all [0]. *)
Theorem parseMigrationName_zero_iff (nm : string) :
  parseMigrationName nm = Err (ErrZeroVersion nm)
  <-> exists pre ds, leftmostMatch nm pre ds /\ allZeros ds = true.
Proof.
  unfold parseMigrationName. split.
  - destruct (Go.FindStringSubmatch nm) as [ds|] eqn:E; [|done].
    pose proof (FindStringSubmatch_digits _ _ E) as [Hd Hne].
    rewrite (Atoi_digits _ Hd Hne).
    apply FindStringSubmatch_leftmost in E as [pre Hpre].
    destruct (Go.decimal 0 ds <=? Go.maxInt); [|done].
    destruct (Z.eqb_spec (Go.decimal 0 ds) 0) as [Hz|]; [|done].
    intros _. exists pre, ds. split; [done|].
    by apply (decimal_zero ds 0 Hd) in Hz as [_ ?].
  - intros (pre & ds & Hm & Hz).
    assert (E : Go.FindStringSubmatch nm = Some ds)
      by (apply FindStringSubmatch_leftmost; eauto).
    rewrite E. pose proof (FindStringSubmatch_digits _ _ E) as [Hd Hne].
    rewrite (Atoi_digits _ Hd Hne).
    assert (Go.decimal 0 ds = 0) as -> by (by apply (decimal_zero ds 0 Hd)).
    reflexivity.
Qed.

Lemma parseMigrationName_value_witness :
  exists pre ds,
    leftmostMatch "0042_add.sql" pre ds /\ 42 = Go.decimal 0 ds /\ 1 <= 42 <= Go.maxInt.
Proof.
  apply (parseMigrationName_value "0042_add.sql" 42). vm_compute. reflexivity.
Defined.

(** ** What [parseMigrations] loads *)

Lemma collectMigrations_skip (entry : dirEntry) (entries : list dirEntry)
    (m : gmap Z migration) :
  isMigrationFile entry = false ->
  collectMigrations (entry :: entries) m = collectMigrations entries m.
Proof.
  unfold isMigrationFile. simpl. destruct (entryIsDir entry); [done|]. simpl.
  by intros ->.
Qed.

Lemma collectMigrations_keep (entry : dirEntry) (entries : list dirEntry)
    (m : gmap Z migration) :
  isMigrationFile entry = true ->
  collectMigrations (entry :: entries) m
  = match parseMigrationName (entryName entry) with
    | Panic => Panic
    | Err e => Err e
    | Ok v =>
        match m !! v with
        | Some other => Err (ErrDuplicateVersion (entryName entry) other.(name))
        | None =>
            match entryContent entry with
            | None => Err (ErrReadMigrationFile (entryName entry))
            | Some content =>
                collectMigrations entries
                  (<[v := mkMigration v (entryName entry) content]> m)
            end
        end
    end.
Proof.
  unfold isMigrationFile. simpl. destruct (entryIsDir entry); [done|]. simpl.
  by intros ->.
Qed.

(** When the first loop ends without an error, the map holds what it
    held before and one migration for each entry the loop keeps. *)
Lemma collectMigrations_spec (entries : list dirEntry) (m m' : gmap Z migration) :
  collectMigrations entries m = Ok m' ->
  (forall v mg, m !! v = Some mg -> m' !! v = Some mg)
  /\ (forall v mg, m' !! v = Some mg ->
        m !! v = Some mg
        \/ exists entry, entry ∈ entries /\ loadedFrom entry mg /\ v = mg.(version))
  /\ (forall entry, entry ∈ entries -> isMigrationFile entry = true ->
        exists mg, loadedFrom entry mg /\ m' !! mg.(version) = Some mg).
Proof.
  revert m. induction entries as [|entry entries IH]; intros m H.
  - inversion H; subst. repeat split; auto. intros entry He. by apply elem_of_nil in He.
  - destruct (isMigrationFile entry) eqn:Ef.
    + rewrite (collectMigrations_keep _ _ _ Ef) in H.
      destruct (parseMigrationName (entryName entry)) as [v| |] eqn:Ev; try done.
      destruct (m !! v) eqn:El; [done|].
      destruct (entryContent entry) as [content|] eqn:Ec; [|done].
      destruct (IH _ H) as (Hkeep & Hsound & Hcompl).
      assert (Hnew : loadedFrom entry (mkMigration v (entryName entry) content))
        by (by repeat split).
      repeat split.
      * intros v' mg Hv'. apply Hkeep. rewrite lookup_insert_ne; [done|].
        intros <-. congruence.
      * intros v' mg Hv'. destruct (Hsound _ _ Hv') as [Hin|(e & He & Hl & ->)].
        -- rewrite lookup_insert in Hin. destruct (decide (v = v')) as [<-|]; [|by left].
           inversion Hin; subst. right. exists entry. split; [by left|]. done.
        -- right. exists e. split; [by right|]. done.
      * intros e He Hf. apply elem_of_cons in He as [->|He]; [|by apply Hcompl].
        exists (mkMigration v (entryName entry) content). split; [done|].
        apply Hkeep. simpl. by rewrite lookup_insert_eq.
    + rewrite (collectMigrations_skip _ _ _ Ef) in H.
      destruct (IH _ H) as (Hkeep & Hsound & Hcompl). repeat split; auto.
      * intros v mg Hv. destruct (Hsound _ _ Hv) as [|(e & He & Hl)]; [by left|].
        right. exists e. split; [by right|]. done.
      * intros e He Hf. apply elem_of_cons in He as [->|He]; [congruence|].
        by apply Hcompl.
Qed.

Lemma parseMigrations_Ok_inv
    (rangeOrder : list migration -> list migration) (entries : list dirEntry)
    (migrations : list migration) :
  isRangeOrder rangeOrder ->
  parseMigrations rangeOrder (Some entries) = Ok migrations ->
  exists m,
    collectMigrations (Go.sortSlice lessName entries) ∅ = Ok m
    /\ migrations ≡ₚ snd <$> map_to_list m.
Proof.
  intros Horder. unfold parseMigrations. simpl.
  destruct (collectMigrations _ ∅) as [m| |] eqn:Ec; try done.
  intros [= <-]. exists m. split; [done|]. by rewrite sortSlice_perm, (Horder _).
Qed.

(** X4. The list [parseMigrations] returns holds exactly the files of
    the directory it does not skip: each regular [.sql] file gives one
    migration, with the file's name, its content and the version of its
    name, and each migration comes from such a file. *)
Theorem parseMigrations_exactly_the_files
    (rangeOrder : list migration -> list migration) (entries : list dirEntry)
    (migrations : list migration) :
  isRangeOrder rangeOrder ->
  parseMigrations rangeOrder (Some entries) = Ok migrations ->
  (forall entry, entry ∈ entries -> isMigrationFile entry = true ->
     exists mg, mg ∈ migrations /\ loadedFrom entry mg)
  /\ (forall mg, mg ∈ migrations ->
        exists entry, entry ∈ entries /\ loadedFrom entry mg).
Proof.
  intros Horder H.
  destruct (parseMigrations_Ok_inv _ _ _ Horder H) as (m & Hc & Hperm).
  destruct (collectMigrations_spec _ _ _ Hc) as (_ & Hsound & Hcompl).
  split.
  - intros entry He Hf.
    destruct (Hcompl entry) as (mg & Hl & Hm); [by rewrite sortSlice_perm|done|].
    exists mg. split; [|done]. rewrite Hperm.
    apply list_elem_of_fmap. exists (mg.(version), mg). split; [done|].
    by apply elem_of_map_to_list.
  - intros mg Hmg. rewrite Hperm in Hmg.
    apply list_elem_of_fmap in Hmg as ([v mg'] & -> & Hin). simpl.
    apply elem_of_map_to_list in Hin.
    destruct (Hsound _ _ Hin) as [Hempty|(entry & He & Hl & _)].
    + by rewrite lookup_empty in Hempty.
    + exists entry. split; [|done]. by rewrite <- (sortSlice_perm lessName).
Qed.

Lemma parseMigrations_exactly_the_files_witness :
  (forall entry, entry ∈ [file "7_c.sql" "C"; file "001_a.sql" "A"; file "README.md" ""] ->
     isMigrationFile entry = true ->
     exists mg, mg ∈ [mkMigration 1 "001_a.sql" "A"; mkMigration 7 "7_c.sql" "C"]
                /\ loadedFrom entry mg)
  /\ (forall mg, mg ∈ [mkMigration 1 "001_a.sql" "A"; mkMigration 7 "7_c.sql" "C"] ->
        exists entry, entry ∈ [file "7_c.sql" "C"; file "001_a.sql" "A"; file "README.md" ""]
                      /\ loadedFrom entry mg).
Proof.
  apply (parseMigrations_exactly_the_files reverseOrder).
  - intros l. symmetry. apply Permutation_rev.
  - vm_compute. reflexivity.
Defined.

(** X5. In a directory that [parseMigrations] loads, two regular [.sql]
    files whose names give the same version are one file: a directory
    with two files of one version never loads. *)
Theorem parseMigrations_versions_distinct
    (rangeOrder : list migration -> list migration) (entries : list dirEntry)
    (migrations : list migration) (e1 e2 : dirEntry) (v : Z) :
  parseMigrations rangeOrder (Some entries) = Ok migrations ->
  e1 ∈ entries -> e2 ∈ entries ->
  isMigrationFile e1 = true -> isMigrationFile e2 = true ->
  parseMigrationName (entryName e1) = Ok v ->
  parseMigrationName (entryName e2) = Ok v ->
  entryName e1 = entryName e2.
Proof.
  unfold parseMigrations. simpl.
  destruct (collectMigrations _ ∅) as [m| |] eqn:Ec; try done.
  intros _ H1 H2 Hf1 Hf2 Hv1 Hv2.
  destruct (collectMigrations_spec _ _ _ Ec) as (_ & _ & Hcompl).
  destruct (Hcompl e1) as (mg1 & (_ & Hp1 & Hn1 & _) & Hm1);
    [by rewrite sortSlice_perm|done|].
  destruct (Hcompl e2) as (mg2 & (_ & Hp2 & Hn2 & _) & Hm2);
    [by rewrite sortSlice_perm|done|].
  rewrite Hv1 in Hp1. rewrite Hv2 in Hp2.
  inversion Hp1 as [Hv1']. inversion Hp2 as [Hv2'].
  rewrite <- Hv1' in Hm1. rewrite <- Hv2' in Hm2. rewrite Hm1 in Hm2.
  inversion Hm2; subst. by rewrite <- Hn1, <- Hn2.
Qed.

Lemma parseMigrations_versions_distinct_witness :
  entryName (file "7_c.sql" "C") = entryName (file "7_c.sql" "C").
Proof.
  apply (parseMigrations_versions_distinct sameOrder
           [file "7_c.sql" "C"; file "001_a.sql" "A"]
           [mkMigration 1 "001_a.sql" "A"; mkMigration 7 "7_c.sql" "C"]
           (file "7_c.sql" "C") (file "7_c.sql" "C") 7).
  - vm_compute. reflexivity.
  - apply (bool_decide_unpack _). vm_compute. exact I.
  - apply (bool_decide_unpack _). vm_compute. exact I.
  - vm_compute. reflexivity.
  - vm_compute. reflexivity.
  - vm_compute. reflexivity.
  - vm_compute. reflexivity.
Defined.

(** X6. [parseMigrations] returns the empty list exactly for the
    readable directories that hold no regular [.sql] file. *)
Theorem parseMigrations_empty_iff
    (rangeOrder : list migration -> list migration) (entries : list dirEntry) :
  isRangeOrder rangeOrder ->
  parseMigrations rangeOrder (Some entries) = Ok []
  <-> Forall (fun entry => isMigrationFile entry = false) entries.
Proof.
  intros Horder. split.
  - intros H. apply Forall_forall. intros entry He.
    destruct (isMigrationFile entry) eqn:Ef; [|done].
    destruct (parseMigrations_Ok_inv _ _ _ Horder H) as (m & Hc & Hperm).
    destruct (collectMigrations_spec _ _ _ Hc) as (_ & _ & Hcompl).
    destruct (Hcompl entry) as (mg & _ & Hm); [by rewrite sortSlice_perm|done|].
    apply elem_of_map_to_list in Hm.
    apply (list_elem_of_fmap_2 snd) in Hm. rewrite <- Hperm in Hm.
    by apply elem_of_nil in Hm.
  - intros Hall. unfold parseMigrations. simpl.
    assert (Hc : forall l : list dirEntry,
               Forall (fun entry => isMigrationFile entry = false) l ->
               collectMigrations l ∅ = Ok ∅).
    { induction 1 as [|e l He _ IH]; [done|]. by rewrite collectMigrations_skip. }
    rewrite Hc.
    + rewrite map_to_list_empty. simpl.
      pose proof (Horder []) as Hn. apply Permutation_nil_r in Hn. by rewrite Hn.
    + by rewrite sortSlice_perm.
Qed.

Lemma parseMigrations_empty_iff_witness :
  parseMigrations sameOrder (Some [mkDirEntry "notes.sql" true None; file "README.md" ""])
  = Ok []
  <-> Forall (fun entry => isMigrationFile entry = false)
        [mkDirEntry "notes.sql" true None; file "README.md" ""].
Proof.
  apply (parseMigrations_empty_iff sameOrder). intros l. reflexivity.
Defined.

(** ** What [parseMigrations] skips, and the names in its errors *)

Lemma collectMigrations_filter (entries : list dirEntry) (m : gmap Z migration) :
  collectMigrations entries m
  = collectMigrations (List.filter isMigrationFile entries) m.
Proof.
  revert m. induction entries as [|entry entries IH]; intros m; [done|].
  cbn [List.filter]. destruct (isMigrationFile entry) eqn:Ef.
  - rewrite !(collectMigrations_keep _ _ _ Ef).
    destruct (parseMigrationName _); try done. destruct (m !! a); [done|].
    by destruct (entryContent entry).
  - by rewrite (collectMigrations_skip _ _ _ Ef).
Qed.

Lemma filter_Permutation_bool {A : Type} (f : A -> bool) (l1 l2 : list A) :
  l1 ≡ₚ l2 -> List.filter f l1 ≡ₚ List.filter f l2.
Proof.
  induction 1 as [|x l1 l2 _ IH|x y l|l1 l2 l3 _ IH1 _ IH2]; simpl.
  - done.
  - destruct (f x); [by rewrite IH|done].
  - destruct (f x), (f y); try done. apply perm_swap.
  - by rewrite IH1.
Qed.

Lemma filter_StronglySorted {A : Type} (R : A -> A -> Prop) (f : A -> bool) (l : list A) :
  StronglySorted R l -> StronglySorted R (List.filter f l).
Proof.
  induction 1 as [|x l _ IH Hx]; simpl; [constructor|].
  destruct (f x); [|done]. constructor; [done|].
  apply Forall_forall. intros y Hy. rewrite Forall_forall in Hx. apply Hx.
  apply list_elem_of_In, filter_In in Hy as [Hy _]. by apply list_elem_of_In.
Qed.

Lemma ReadDir_sorted (entries : list dirEntry) :
  StronglySorted (notAfter lessName) (Go.sortSlice lessName entries).
Proof.
  apply (Sorted.Sorted_StronglySorted notAfter_lessName_trans).
  apply sortSlice_sorted, lessName_asym.
Qed.

(** X7. Directories and files without the suffix [.sql] do not count:
    [parseMigrations] returns on a directory what it returns on the
    directory without them. *)
Theorem parseMigrations_ignores_other_entries
    (rangeOrder : list migration -> list migration) (entries : list dirEntry) :
  distinctNames (Some entries) ->
  parseMigrations rangeOrder (Some entries)
  = parseMigrations rangeOrder (Some (List.filter isMigrationFile entries)).
Proof.
  intros Hnd. unfold parseMigrations, ReadDir.
  rewrite (collectMigrations_filter (Go.sortSlice lessName entries)).
  replace (List.filter isMigrationFile (Go.sortSlice lessName entries))
    with (Go.sortSlice lessName (List.filter isMigrationFile entries)); [done|].
  symmetry. apply (sortSlice_unique lessName lessName_asym notAfter_lessName_trans).
  - intros a b Ha Hb Hab Hba.
    apply list_elem_of_In, filter_In in Ha as [Ha _].
    apply list_elem_of_In, filter_In in Hb as [Hb _].
    apply (NoDup_fmap_elem_inj entryName entries); try by apply list_elem_of_In.
    + exact Hnd.
    + unfold notAfter, lessName in Hab, Hba. apply stringLess_false in Hab, Hba.
      destruct Hab as [|Hab]; [done|]. destruct Hba as [|Hba]; [done|].
      exfalso. apply (irreflexivity String_as_OT.lt (entryName a)).
      by transitivity (entryName b).
  - apply filter_Permutation_bool, sortSlice_perm.
  - apply StronglySorted_Sorted, filter_StronglySorted, ReadDir_sorted.
Qed.

Lemma parseMigrations_ignores_other_entries_witness :
  parseMigrations sameOrder exampleDir
  = parseMigrations sameOrder
      (Some (List.filter isMigrationFile
               [file "7_c.sql" "C"; file "001_a.sql" "A"; mkDirEntry "notes.sql" true None;
                file "README.md" ""; file "3_b.sql" "B"])).
Proof.
  apply (parseMigrations_ignores_other_entries sameOrder).
  unfold distinctNames. apply (bool_decide_unpack _). vm_compute. exact I.
Defined.

(** When the first loop stops on two migrations of one version, the
    first name in the error is that of the entry it stopped at and the
    second that of an entry before it, or of a migration the map held. *)
Lemma collectMigrations_duplicate (entries : list dirEntry) (m : gmap Z migration)
    (n1 n2 : string) :
  collectMigrations entries m = Err (ErrDuplicateVersion n1 n2) ->
  exists l1 e1 l2 v,
    entries = l1 ++ e1 :: l2
    /\ isMigrationFile e1 = true
    /\ entryName e1 = n1
    /\ parseMigrationName n1 = Ok v
    /\ ((exists mg, m !! v = Some mg /\ mg.(name) = n2)
        \/ (exists e2, e2 ∈ l1 /\ isMigrationFile e2 = true /\ entryName e2 = n2
                       /\ parseMigrationName n2 = Ok v)).
Proof.
  revert m. induction entries as [|entry entries IH]; intros m H; [done|].
  destruct (isMigrationFile entry) eqn:Ef.
  - rewrite (collectMigrations_keep _ _ _ Ef) in H.
    destruct (parseMigrationName (entryName entry)) as [v| |] eqn:Ev; try done.
    + destruct (m !! v) as [other|] eqn:El.
      * inversion H; subst. exists [], entry, entries, v. repeat split; try done.
        left. by exists other.
      * destruct (entryContent entry) as [content|]; [|done].
        destruct (IH _ H) as (l1 & e1 & l2 & v' & -> & Hf1 & Hn1 & Hv1 & Hprev).
        exists (entry :: l1), e1, l2, v'. repeat split; try done.
        destruct Hprev as [(mg & Hmg & Hname)|(e2 & He2 & Hrest)].
        -- rewrite lookup_insert in Hmg. destruct (decide (v = v')) as [<-|].
           ++ inversion Hmg; subst. right. exists entry. split; [by left|]. done.
           ++ left. by exists mg.
        -- right. exists e2. split; [by right|]. done.
    + unfold parseMigrationName in Ev.
      destruct (Go.FindStringSubmatch _); [|by inversion Ev; subst].
      destruct (Go.Atoi _) as [n|]; [|done]. destruct (n =? 0); [|done].
      by inversion Ev; subst.
  - rewrite (collectMigrations_skip _ _ _ Ef) in H.
    destruct (IH _ H) as (l1 & e1 & l2 & v & -> & Hf1 & Hn1 & Hv1 & Hprev).
    exists (entry :: l1), e1, l2, v. repeat split; try done.
    destruct Hprev as [|(e2 & He2 & Hrest)]; [by left|].
    right. exists e2. split; [by right|]. done.
Qed.

(** X8. The names in the error for two migrations of one version are
    those of two regular [.sql] files of the directory whose names give
    one version, and the one named first is the later of the two in the
    order of file names: the same for every listing of the directory. *)
Theorem parseMigrations_duplicate_names
    (rangeOrder : list migration -> list migration) (entries : list dirEntry)
    (n1 n2 : string) :
  distinctNames (Some entries) ->
  parseMigrations rangeOrder (Some entries) = Err (ErrDuplicateVersion n1 n2) ->
  exists e1 e2 v,
    e1 ∈ entries /\ e2 ∈ entries
    /\ isMigrationFile e1 = true /\ isMigrationFile e2 = true
    /\ entryName e1 = n1 /\ entryName e2 = n2
    /\ parseMigrationName n1 = Ok v /\ parseMigrationName n2 = Ok v
    /\ Go.stringLess n2 n1 = true.
Proof.
  intros Hnd. unfold parseMigrations, ReadDir.
  destruct (collectMigrations _ ∅) as [m| |] eqn:Ec; try done.
  intros [= ->].
  apply collectMigrations_duplicate in Ec
    as (l1 & e1 & l2 & v & Hsplit & Hf1 & Hn1 & Hv1 & [(mg & Hmg & _)|(e2 & He2 & Hf2 & Hn2 & Hv2)]).
  { by rewrite lookup_empty in Hmg. }
  pose proof (ReadDir_sorted entries) as Hsorted.
  assert (Hnd' : NoDup (entryName <$> Go.sortSlice lessName entries))
    by (rewrite sortSlice_perm; exact Hnd).
  rewrite Hsplit in Hsorted, Hnd'.
  assert (Hin : forall e, e ∈ l1 ++ e1 :: l2 -> e ∈ entries)
    by (intros e He; by rewrite <- (sortSlice_perm lessName), Hsplit).
  exists e1, e2, v. repeat split; try done.
  - apply Hin. set_solver.
  - apply Hin. set_solver.
  - apply StronglySorted_app_1_elem_of with (x1 := e2) (x2 := e1) in Hsorted;
      [|done|by left].
    unfold notAfter, lessName in Hsorted. rewrite Hn1, Hn2 in Hsorted.
    apply stringLess_false in Hsorted as [Heq|Hlt]; [|by apply stringLess_lt].
    exfalso. rewrite fmap_app, fmap_cons in Hnd'.
    apply NoDup_app in Hnd' as (_ & Hdisj & _).
    apply (Hdisj (entryName e2)); [by apply list_elem_of_fmap_2|].
    rewrite Hn2, Heq, <- Hn1. by left.
Qed.

Lemma parseMigrations_duplicate_names_witness :
  exists e1 e2 v,
    e1 ∈ [file "02_a.sql" "A"; file "2_b.sql" "B"]
    /\ e2 ∈ [file "02_a.sql" "A"; file "2_b.sql" "B"]
    /\ isMigrationFile e1 = true /\ isMigrationFile e2 = true
    /\ entryName e1 = "2_b.sql" /\ entryName e2 = "02_a.sql"
    /\ parseMigrationName "2_b.sql" = Ok v /\ parseMigrationName "02_a.sql" = Ok v
    /\ Go.stringLess "02_a.sql" "2_b.sql" = true.
Proof.
  apply (parseMigrations_duplicate_names reverseOrder).
  - unfold distinctNames. apply (bool_decide_unpack _). vm_compute. exact I.
  - vm_compute. reflexivity.
Defined.

(** ** The events of a run *)

Section RunFacts.

Context {D : Type} (execScript : string -> database D -> database D * bool).

(** Whatever the scripts and the state table do, the events of the
    second loop with [--force] are the first [n] events of the run in
    which every call succeeds, all of them when the loop ends without an
    error. *)
Lemma runMigrations_force_events (pending : list migration) (st : state)
    (q q' : conn D) (r : outcome unit) :
  runMigrations execScript true pending st q = (q', r) ->
  exists n : nat,
    trace q' = trace q ++ take n (forcedEvents st.(state_version) pending)
    /\ (r = Ok tt -> trace q' = trace q ++ forcedEvents st.(state_version) pending).
Proof.
  revert st q q' r. induction pending as [|m rest IH]; intros st q q' r H.
  - inversion H; subst. exists 0%nat. simpl. by rewrite app_nil_r.
  - cbn [runMigrations] in H.
    apply bind_inv in H as [([] & q1 & H1 & H)|[(e & H1 & _)|[H1 _]]]; [|done..].
    inversion H1; subst q1; clear H1.
    pose proof (setState_trace execScript (emit (EvStdout m.(name)) q)
                  (mkState st.(state_version) true)) as [Ht2 Hp2].
    apply bind_inv in H as [([] & q2 & H2 & H)|[(e & H2 & ->)|[H2 ->]]];
      rewrite H2 in Ht2, Hp2; simpl in Ht2, Hp2; [| |done];
      rewrite <- app_assoc in Ht2; simpl in Ht2.
    2:{ exists 2%nat. by rewrite Ht2. }
    apply bind_inv in H as [([] & q3 & H3 & H)|[(e & H3 & ->)|[H3 ->]]];
      rewrite ExecContext_Script in H3;
      destruct (snd (execScript m.(query) (store q2))); inversion H3; subst; clear H3.
    2:{ exists 3%nat. simpl. rewrite Ht2, <- app_assoc. done. }
    pose proof (setState_trace execScript
                  (mkConn (fst (execScript m.(query) (store q2)))
                          (trace q2 ++ [EvExec (Script m.(query))]))
                  (mkState m.(version) false)) as [Ht4 Hp4].
    apply bind_inv in H as [([] & q4 & H4 & H)|[(e & H4 & ->)|[H4 ->]]];
      rewrite H4 in Ht4, Hp4; simpl in Ht4, Hp4; [| |done];
      rewrite Ht2, <- !app_assoc in Ht4; simpl in Ht4.
    2:{ exists 4%nat. simpl. by rewrite Ht4, take_0. }
    destruct (IH _ _ _ _ H) as (n & Hn & Hok). cbn [state_version] in Hn, Hok.
    exists (4 + n)%nat. split.
    + rewrite Hn, Ht4, <- app_assoc. done.
    + intros Hr. rewrite (Hok Hr), Ht4, <- app_assoc. done.
Qed.

Lemma scriptsAfterDirty_dry (pending : list migration) (armed : bool) :
  scriptsAfterDirty armed (map (fun m => EvStdout m.(name)) pending) = true.
Proof.
  revert armed. induction pending as [|m rest IH]; intros armed; [done|]. apply IH.
Qed.

Lemma scriptsAfterDirty_forced (n : nat) (v : Z) (pending : list migration)
    (armed : bool) :
  scriptsAfterDirty armed (take n (forcedEvents v pending)) = true.
Proof.
  revert n v armed. induction pending as [|m rest IH]; intros n v armed.
  - by destruct n.
  - do 4 (destruct n as [|n]; [done|]). simpl. apply IH.
Qed.

Lemma scriptsAfterDirty_app (armed : bool) (t1 t2 : list event) :
  scriptsAfterDirty armed t1 = true ->
  executedScripts t2 = [] ->
  scriptsAfterDirty armed (t1 ++ t2) = true.
Proof.
  intros H1 H2. revert armed H1. induction t1 as [|e t1 IH]; intros armed H1.
  - simpl. clear H1. revert armed.
    induction t2 as [|e t2 IH2]; intros armed; [done|].
    destruct e as [| | | |[s|text]| |]; simpl in *; try done; by apply IH2.
  - destruct e as [| | | |[s|text]| |]; simpl in *; try by apply IH.
    apply andb_prop in H1 as [-> H1]. simpl. by apply IH.
Qed.

(** The events the function of [migrate] adds: the read of the state,
    then nothing, or the names, or the start of a forced run. *)
Lemma migrateFunc_events (force : bool) (migrations : list migration)
    (q q' : conn D) (r : outcome unit) :
  migrateFunc execScript force migrations q = (q', r) ->
  exists body,
    trace q' = trace q ++ EvQueryRow :: body
    /\ scriptsAfterDirty false body = true.
Proof.
  unfold migrateFunc. intros H.
  pose proof (getState_trace q) as (Ht & _ & Hp).
  apply bind_inv in H as [(s & q1 & H1 & H)|[(e & H1 & ->)|[H1 ->]]];
    rewrite H1 in Ht, Hp; simpl in Ht, Hp; [| |done].
  2:{ exists []. by rewrite Ht. }
  destruct s.(state_dirty).
  { inversion H; subst. exists []. by rewrite Ht. }
  destruct force.
  - apply runMigrations_force_events in H as (n & Hn & _).
    eexists. rewrite Hn, Ht, <- app_assoc. split; [done|].
    apply scriptsAfterDirty_forced.
  - rewrite runMigrations_dry in H. inversion H; subst.
    eexists. simpl. rewrite Ht, <- app_assoc. split; [done|].
    apply scriptsAfterDirty_dry.
Qed.

End RunFacts.

(** X9. Whatever the scripts do and whatever the state table holds, in
    every run of [migrate] each script is executed right after the write
    of a dirty state: no script ever runs on a database not marked
    dirty just before. *)
Theorem migrate_scripts_after_dirty {D : Type}
    (execScript : string -> database D -> database D * bool)
    (drv : driver) (inTx force : bool) (migrations : list migration)
    (db : conn D) :
  exists body,
    trace (fst (withTx drv inTx (migrateFunc execScript force migrations) db))
    = trace db ++ body
    /\ scriptsAfterDirty false body = true.
Proof.
  unfold withTx. destruct inTx; simpl.
  - destruct (beginErr drv); [by exists [EvBeginTx]|].
    destruct (migrateFunc execScript force migrations (emit EvBeginTx db))
      as [tx r] eqn:E.
    apply migrateFunc_events in E as (body & Htr & Hb).
    simpl in Htr. rewrite <- app_assoc in Htr. simpl in Htr.
    destruct r as [[]|e|].
    + exists (EvBeginTx :: EvQueryRow :: body ++ [EvCommit]).
      split; [|by apply (scriptsAfterDirty_app false body [EvCommit])].
      destruct (commitErr drv); simpl; by rewrite Htr, <- app_assoc.
    + exists (EvBeginTx :: EvQueryRow :: body ++ [EvRollback]).
      split; [|by apply (scriptsAfterDirty_app false body [EvRollback])].
      destruct (rollbackErr drv); simpl; by rewrite Htr, <- app_assoc.
    + exists (EvBeginTx :: EvQueryRow :: body). simpl. by rewrite Htr.
  - destruct (migrateFunc execScript force migrations db) as [q' r] eqn:E.
    apply migrateFunc_events in E as (body & Htr & Hb).
    exists (EvQueryRow :: body). simpl. by rewrite Htr.
Qed.

(** ** The state store *)

(** X10. On a state table with at least one row, [setState] succeeds,
    [getState] then returns the state just written, whatever the table
    held before, every row of the table holds it, and the rest of the
    database is untouched. *)
Theorem setState_getState {D : Type}
    (execScript : string -> database D -> database D * bool)
    (q : conn D) (s row : state) (rows : list state) :
  stateTable (store q) = Some (row :: rows) ->
  snd (setState execScript s q) = Ok tt
  /\ snd (getState (fst (setState execScript s q))) = Ok s
  /\ stateTable (store (fst (setState execScript s q)))
     = Some (repeat s (length (row :: rows)))
  /\ userData (store (fst (setState execScript s q))) = userData (store q).
Proof.
  intros Ht. rewrite (setState_rows execScript q s _ Ht). cbn [fst snd].
  split; [done|]. split; [|split; [|done]].
  - by rewrite (getState_row (mkConn _ _) s (map (fun _ => s) rows)).
  - cbn [store stateTable]. f_equal. clear Ht. generalize (row :: rows).
    induction l as [|r l IH]; [done|]. simpl. by rewrite IH.
Qed.

Lemma setState_getState_witness :
  snd (setState journalExec (mkState 5 false) (freshDb 3 true)) = Ok tt
  /\ snd (getState (fst (setState journalExec (mkState 5 false) (freshDb 3 true))))
     = Ok (mkState 5 false)
  /\ stateTable (store (fst (setState journalExec (mkState 5 false) (freshDb 3 true))))
     = Some (repeat (mkState 5 false) (length [mkState 3 true]))
  /\ userData (store (fst (setState journalExec (mkState 5 false) (freshDb 3 true))))
     = userData (store (freshDb 3 true)).
Proof.
  apply (setState_getState journalExec (freshDb 3 true) (mkState 5 false)
           (mkState 3 true) []).
  reflexivity.
Defined.

(** X11. On a state table without a row, [setState] reports success and
    stores nothing: the table is as before and [getState] still fails.
    Without a table, [setState] fails and changes nothing. *)
Theorem setState_without_row {D : Type}
    (execScript : string -> database D -> database D * bool)
    (q : conn D) (s : state) :
  (stateTable (store q) = Some [] ->
   snd (setState execScript s q) = Ok tt
   /\ store (fst (setState execScript s q)) = store q
   /\ snd (getState (fst (setState execScript s q))) = Err ErrReadState)
  /\ (stateTable (store q) = None ->
      snd (setState execScript s q) = Err ErrWriteState
      /\ store (fst (setState execScript s q)) = store q).
Proof.
  split; intros Ht.
  - rewrite (setState_rows execScript q s _ Ht). cbn [fst snd map store].
    split; [done|]. split.
    + destruct q as [[t d] tr]. simpl in *. by subst.
    + unfold getState, QueryRowContext. done.
  - unfold setState, ExecContext. simpl. by rewrite Ht.
Qed.

(** ** [migrate] on a state it cannot read *)

(** X12. When the state table is missing or holds no row, [migrate]
    fails in every mode: it prints no name, runs no script, writes no
    state and leaves the database as it was; the error is that of the
    read of the state (in a transaction: whenever the transaction could
    be opened and rolled back). *)
Theorem migrate_unreadable_state {D : Type}
    (execScript : string -> database D -> database D * bool)
    (drv : driver) (inTx force : bool) (migrations : list migration)
    (db db' : conn D) (r : outcome unit) :
  stateTable (store db) = None \/ stateTable (store db) = Some [] ->
  withTx drv inTx (migrateFunc execScript force migrations) db = (db', r) ->
  (exists e, r = Err e)
  /\ (inTx = false \/ (drv.(beginErr) = false /\ drv.(rollbackErr) = false) ->
      r = Err ErrReadState)
  /\ printed (trace db') = printed (trace db)
  /\ executedScripts (trace db') = executedScripts (trace db)
  /\ stateWrites (trace db') = stateWrites (trace db)
  /\ store db' = store db.
Proof.
  intros Ht H.
  assert (Hf : forall q : conn D, store q = store db ->
             migrateFunc execScript force migrations q
             = (emit EvQueryRow q, Err ErrReadState)).
  { intros q Hq. unfold migrateFunc, bind, getState, QueryRowContext. simpl.
    rewrite Hq. by destruct Ht as [-> | ->]. }
  unfold withTx in H. destruct inTx; simpl in H.
  - destruct (beginErr drv) eqn:Eb.
    + inversion H; subst. simpl.
      rewrite printed_app, executedScripts_app, stateWrites_app. simpl.
      rewrite !app_nil_r. repeat split; eauto. by intros [|[? _]].
    + rewrite (Hf (emit EvBeginTx db) eq_refl) in H.
      destruct (rollbackErr drv) eqn:Er; inversion H; subst; simpl;
        rewrite !printed_app, !executedScripts_app, !stateWrites_app; simpl;
        rewrite !app_nil_r; repeat split; eauto.
      by intros [|[_ ?]].
  - rewrite (Hf db eq_refl) in H. inversion H; subst. simpl.
    rewrite printed_app, executedScripts_app, stateWrites_app. simpl.
    rewrite !app_nil_r. repeat split; eauto.
Qed.

Lemma migrate_unreadable_state_witness :
  let db := mkConn (mkDatabase None ([] : list string)) [] in
  let run := withTx healthy true (migrateFunc journalExec true threeMigrations) db in
  (exists e, snd run = Err e)
  /\ (true = false \/ (healthy.(beginErr) = false /\ healthy.(rollbackErr) = false) ->
      snd run = Err ErrReadState)
  /\ printed (trace (fst run)) = printed (trace db)
  /\ executedScripts (trace (fst run)) = executedScripts (trace db)
  /\ stateWrites (trace (fst run)) = stateWrites (trace db)
  /\ store (fst run) = store db.
Proof.
  apply (migrate_unreadable_state journalExec healthy true true threeMigrations
           (mkConn (mkDatabase None ([] : list string)) [])).
  - left. reflexivity.
  - vm_compute. reflexivity.
Defined.

(** ** One run after another *)

Lemma advance_all_le (migrations : list migration) (v : Z) :
  Forall (fun m => m.(version) <= v) migrations -> advance migrations v = [].
Proof.
  induction 1 as [|m l Hm _ IH]; simpl; [done|].
  destruct (Z.leb_spec m.(version) v); [done|lia].
Qed.

Lemma advance_is_suffix (migrations : list migration) (v : Z) :
  exists skipped, migrations = skipped ++ advance migrations v.
Proof.
  induction migrations as [|m l [skipped IH]]; simpl; [by exists []|].
  destruct (m.(version) <=? v).
  - exists (m :: skipped). simpl. by rewrite <- IH.
  - by exists [].
Qed.

Lemma sorted_le_last (l : list migration) (d : Z) :
  StronglySorted Z.lt (map version l) ->
  Forall (fun m => m.(version) <= List.last (map version l) d) l.
Proof.
  revert d. induction l as [|m l IH]; intros d Hs; [constructor|].
  inversion Hs as [|? ? Hl Hm]; subst. cbn [map]. rewrite last_cons_default.
  constructor.
  - destruct l as [|m' l]; [simpl; lia|].
    specialize (IH m.(version) Hl). inversion IH as [|? ? Hm' _]; subst.
    inversion Hm as [|? ? Hlt _]; subst. lia.
  - by apply IH.
Qed.

Lemma last_app_cons {A : Type} (l1 l2 : list A) (x d d' : A) :
  List.last (l1 ++ x :: l2) d = List.last (x :: l2) d'.
Proof.
  revert d. induction l1 as [|a l1 IH]; intros d.
  - change ([] ++ x :: l2) with (x :: l2). by rewrite (last_cons_default x d), (last_cons_default x d').
  - change ((a :: l1) ++ x :: l2) with (a :: (l1 ++ x :: l2)).
    rewrite last_cons_default. apply IH.
Qed.

(** After the last pending migration nothing is pending. *)
Lemma advance_after_last (migrations : list migration) (v : Z) :
  StronglySorted Z.lt (map version migrations) ->
  advance migrations (List.last (map version (advance migrations v)) v) = [].
Proof.
  intros Hs. destruct (advance migrations v) as [|m p] eqn:E; [done|].
  destruct (advance_is_suffix migrations v) as [skipped Hsplit]. rewrite E in Hsplit.
  apply advance_all_le.
  replace (List.last (map version (m :: p)) v)
    with (List.last (map version migrations) v); [by apply sorted_le_last|].
  rewrite Hsplit, map_app. cbn [map]. apply last_app_cons.
Qed.

Section SequenceFacts.

Context {D : Type} (execScript : string -> database D -> database D * bool).

Lemma migrateFunc_nothing_pending (force : bool) (migrations : list migration)
    (q : conn D) (s : state) (rows : list state) :
  stateTable (store q) = Some (s :: rows) ->
  s.(state_dirty) = false ->
  advance migrations s.(state_version) = [] ->
  migrateFunc execScript force migrations q = (emit EvQueryRow q, Ok tt).
Proof.
  intros Ht Hd Ha. rewrite (migrateFunc_clean _ _ _ q s rows Ht Hd), Ha. done.
Qed.

(** A run that finds nothing to do, or a dirty state, or no state, adds
    the read of the state and nothing else. *)
Lemma withTx_only_reads (drv : driver) (inTx : bool) (f : conn D -> conn D * outcome unit)
    (db db' : conn D) (r r0 : outcome unit) :
  (forall q, store q = store db -> f q = (emit EvQueryRow q, r0)) ->
  withTx drv inTx f db = (db', r) ->
  printed (trace db') = printed (trace db)
  /\ executedScripts (trace db') = executedScripts (trace db)
  /\ stateWrites (trace db') = stateWrites (trace db)
  /\ store db' = store db
  /\ (r0 <> Ok tt -> r <> Ok tt).
Proof.
  intros Hf H. unfold withTx in H. destruct inTx; simpl in H.
  - destruct (beginErr drv).
    + inversion H; subst. simpl.
      rewrite printed_app, executedScripts_app, stateWrites_app. simpl.
      by rewrite !app_nil_r.
    + rewrite (Hf (emit EvBeginTx db) eq_refl) in H.
      destruct r0 as [[]|e|]; [destruct (commitErr drv)|destruct (rollbackErr drv)|];
        inversion H; subst; simpl;
        rewrite ?printed_app, ?executedScripts_app, ?stateWrites_app; simpl;
        rewrite ?app_nil_r; repeat split; done.
  - rewrite (Hf db eq_refl) in H. inversion H; subst. simpl.
    rewrite printed_app, executedScripts_app, stateWrites_app. simpl.
    by rewrite !app_nil_r.
Qed.

(** The state table a forced run leaves when it succeeds. *)
Lemma withTx_force_Ok_table (drv : driver) (inTx : bool) (migrations : list migration)
    (V : Z) (db db' : conn D) :
  scriptsKeepStateTable execScript ->
  stateTable (store db) = Some [mkState V false] ->
  withTx drv inTx (migrateFunc execScript true migrations) db = (db', Ok tt) ->
  stateTable (store db')
  = Some [mkState (List.last (map version (advance migrations V)) V) false].
Proof.
  intros Hframe Htable H. unfold withTx in H. destruct inTx; simpl in H.
  - destruct (beginErr drv); [done|].
    rewrite (migrateFunc_clean _ _ _ (emit EvBeginTx db) _ [] Htable eq_refl) in H.
    destruct (runMigrations _ _ _ _ _) as [tx r] eqn:E.
    apply runMigrations_force_framed in E; [|done..].
    destruct r as [[]|e|]; [|by destruct (rollbackErr drv)|done].
    destruct (commitErr drv); [done|]. inversion H; subst. simpl. by destruct E as [_ ->].
  - rewrite (migrateFunc_clean _ _ _ db _ [] Htable eq_refl) in H.
    by apply runMigrations_force_framed in H as [_ ->].
Qed.

(** The state table a forced run outside a transaction leaves when a
    script fails. *)
Lemma withTx_force_failed_table (drv : driver) (migrations : list migration)
    (V : Z) (db db' : conn D) (failed : string) :
  scriptsKeepStateTable execScript ->
  stateTable (store db) = Some [mkState V false] ->
  withTx drv false (migrateFunc execScript true migrations) db
  = (db', Err (ErrExec failed)) ->
  exists v, stateTable (store db') = Some [mkState v true].
Proof.
  intros Hframe Htable H. unfold withTx in H. simpl in H.
  rewrite (migrateFunc_clean _ _ _ db _ [] Htable eq_refl) in H.
  apply runMigrations_force_framed in H; [|done..].
  destruct H as (done & m & rest & _ & _ & _ & Hst & _). eauto.
Qed.

Lemma withTx_trace_irrelevant (drv : driver) (inTx force : bool)
    (migrations : list migration) (db : conn D) (tr : list event) :
  store (fst (withTx drv inTx (migrateFunc execScript force migrations) db))
  = store (fst (withTx drv inTx (migrateFunc execScript force migrations)
                  (mkConn (store db) tr)))
  /\ snd (withTx drv inTx (migrateFunc execScript force migrations) db)
     = snd (withTx drv inTx (migrateFunc execScript force migrations)
              (mkConn (store db) tr)).
Proof.
  unfold withTx. destruct inTx; simpl.
  - destruct (beginErr drv); [done|].
    destruct (migrateFunc_trace_irrelevant execScript force migrations
                (emit EvBeginTx db) (tr ++ [EvBeginTx])) as [Hs Hr].
    simpl in Hs, Hr. unfold emit at 2 4. simpl.
    destruct (migrateFunc execScript force migrations (emit EvBeginTx db)) as [tx r].
    destruct (migrateFunc execScript force migrations
                (mkConn (store db) (tr ++ [EvBeginTx]))) as [tx2 r2].
    simpl in Hs, Hr. subst r2.
    destruct r as [[]|e|]; [destruct (commitErr drv)|destruct (rollbackErr drv)|];
      simpl; done.
  - apply migrateFunc_trace_irrelevant.
Qed.

End SequenceFacts.

(** X13. Running [migrate] again after a forced run that succeeded does
    nothing: in any mode, with or without [--force], the second run
    prints no name, runs no script, writes no state and leaves the
    database as the first run left it. *)
Theorem migrate_twice {D : Type}
    (execScript : string -> database D -> database D * bool)
    (drv1 drv2 : driver) (inTx1 inTx2 force2 : bool) (migrations : list migration)
    (V : Z) (db db1 db2 : conn D) (r2 : outcome unit) :
  scriptsKeepStateTable execScript ->
  StronglySorted Z.lt (map version migrations) ->
  stateTable (store db) = Some [mkState V false] ->
  withTx drv1 inTx1 (migrateFunc execScript true migrations) db = (db1, Ok tt) ->
  withTx drv2 inTx2 (migrateFunc execScript force2 migrations) db1 = (db2, r2) ->
  printed (trace db2) = printed (trace db1)
  /\ executedScripts (trace db2) = executedScripts (trace db1)
  /\ stateWrites (trace db2) = stateWrites (trace db1)
  /\ store db2 = store db1.
Proof.
  intros Hframe Hsorted Htable H1 H2.
  pose proof (withTx_force_Ok_table execScript _ _ _ _ _ _ Hframe Htable H1) as Ht1.
  destruct (withTx_only_reads drv2 inTx2 (migrateFunc execScript force2 migrations)
              db1 db2 r2 (Ok tt)) as (Hp & He & Hw & Hs & _);
    [|exact H2|done].
  intros q Hq. eapply migrateFunc_nothing_pending.
  - rewrite Hq. exact Ht1.
  - done.
  - by apply advance_after_last.
Qed.

Lemma migrate_twice_witness :
  let second := withTx healthy false (migrateFunc journalExec true threeMigrations)
                  (fst forcedRun) in
  printed (trace (fst second)) = printed (trace (fst forcedRun))
  /\ executedScripts (trace (fst second)) = executedScripts (trace (fst forcedRun))
  /\ stateWrites (trace (fst second)) = stateWrites (trace (fst forcedRun))
  /\ store (fst second) = store (fst forcedRun).
Proof.
  apply (migrate_twice journalExec healthy healthy true false true threeMigrations 1
           (freshDb 1 false) (fst forcedRun)
           (fst (withTx healthy false (migrateFunc journalExec true threeMigrations)
                   (fst forcedRun)))
           (snd (withTx healthy false (migrateFunc journalExec true threeMigrations)
                   (fst forcedRun)))).
  - intros text db. reflexivity.
  - repeat constructor.
  - reflexivity.
  - vm_compute. reflexivity.
  - vm_compute. reflexivity.
Defined.

(** X14. After a forced run outside a transaction has stopped on a
    failing script, [migrate] refuses to run: in any mode and for any
    migration set, the next run fails, prints no name, runs no script,
    writes no state and leaves the database as the failure left it. *)
Theorem migrate_blocked_after_failure {D : Type}
    (execScript : string -> database D -> database D * bool)
    (drv1 drv2 : driver) (inTx2 force2 : bool) (migrations migrations2 : list migration)
    (V : Z) (db db1 db2 : conn D) (failed : string) (r2 : outcome unit) :
  scriptsKeepStateTable execScript ->
  stateTable (store db) = Some [mkState V false] ->
  withTx drv1 false (migrateFunc execScript true migrations) db
  = (db1, Err (ErrExec failed)) ->
  withTx drv2 inTx2 (migrateFunc execScript force2 migrations2) db1 = (db2, r2) ->
  r2 <> Ok tt
  /\ printed (trace db2) = printed (trace db1)
  /\ executedScripts (trace db2) = executedScripts (trace db1)
  /\ stateWrites (trace db2) = stateWrites (trace db1)
  /\ store db2 = store db1.
Proof.
  intros Hframe Htable H1 H2.
  destruct (withTx_force_failed_table execScript _ _ _ _ _ _ Hframe Htable H1) as [v Ht1].
  destruct (withTx_only_reads drv2 inTx2 (migrateFunc execScript force2 migrations2)
              db1 db2 r2 (Err ErrDirty))
    as (Hp & He & Hw & Hs & Hr); [|exact H2|].
  - intros q Hq. eapply migrateFunc_dirty; [by rewrite Hq|done].
  - repeat split; try done. by apply Hr.
Qed.

Lemma migrate_blocked_after_failure_witness :
  let second := withTx healthy true (migrateFunc journalExec true threeMigrations)
                  (fst failedRun) in
  snd second <> Ok tt
  /\ printed (trace (fst second)) = printed (trace (fst failedRun))
  /\ executedScripts (trace (fst second)) = executedScripts (trace (fst failedRun))
  /\ stateWrites (trace (fst second)) = stateWrites (trace (fst failedRun))
  /\ store (fst second) = store (fst failedRun).
Proof.
  apply (migrate_blocked_after_failure journalExec healthy healthy true true
           brokenMigrations threeMigrations 0 (freshDb 0 false) (fst failedRun)
           (fst (withTx healthy true (migrateFunc journalExec true threeMigrations)
                   (fst failedRun)))
           "3_b.sql").
  - intros text db. reflexivity.
  - reflexivity.
  - vm_compute. reflexivity.
  - vm_compute. reflexivity.
Defined.

Lemma migrateFunc_dry_store {D : Type}
    (execScript : string -> database D -> database D * bool)
    (migrations : list migration) (q : conn D) :
  store (fst (migrateFunc execScript false migrations q)) = store q.
Proof.
  unfold migrateFunc, bind, getState, QueryRowContext, fail. simpl.
  destruct (stateTable (store q)) as [[|s rows]|]; try done.
  destruct s.(state_dirty); [done|]. by rewrite runMigrations_dry.
Qed.

(** X15. A run without [--force] leaves the database as it was,
    whatever its state, and changes nothing for the run that follows:
    [migrate] after a dry run leaves the database and returns the result
    it would have without the dry run. *)
Theorem migrate_dry_run_harmless {D : Type}
    (execScript : string -> database D -> database D * bool)
    (drv0 drv : driver) (inTx0 inTx force : bool)
    (migrations0 migrations : list migration) (db : conn D) :
  store (fst (withTx drv0 inTx0 (migrateFunc execScript false migrations0) db)) = store db
  /\ store (fst (withTx drv inTx (migrateFunc execScript force migrations)
                   (fst (withTx drv0 inTx0 (migrateFunc execScript false migrations0) db))))
     = store (fst (withTx drv inTx (migrateFunc execScript force migrations) db))
  /\ snd (withTx drv inTx (migrateFunc execScript force migrations)
            (fst (withTx drv0 inTx0 (migrateFunc execScript false migrations0) db)))
     = snd (withTx drv inTx (migrateFunc execScript force migrations) db).
Proof.
  assert (Hs : store (fst (withTx drv0 inTx0 (migrateFunc execScript false migrations0) db))
               = store db).
  { unfold withTx. destruct inTx0; simpl; [|apply migrateFunc_dry_store].
    destruct (beginErr drv0); [done|].
    pose proof (migrateFunc_dry_store execScript migrations0 (emit EvBeginTx db)) as Hd.
    destruct (migrateFunc execScript false migrations0 (emit EvBeginTx db)) as [tx r].
    simpl in Hd.
    destruct r as [[]|e|]; [destruct (commitErr drv0)|destruct (rollbackErr drv0)|];
      simpl; done. }
  split; [done|].
  destruct (withTx drv0 inTx0 (migrateFunc execScript false migrations0) db) as [db1 r1].
  simpl in *.
  destruct (withTx_trace_irrelevant execScript drv inTx force migrations db (trace db1))
    as [H1 H2].
  rewrite <- Hs in H1, H2. destruct db1 as [st1 tr1]. simpl in *. by rewrite H1, H2.
Qed.

(** ** The commands *)

Lemma withTx_migrateFunc_no_panic {D : Type}
    (execScript : string -> database D -> database D * bool)
    (drv : driver) (inTx force : bool) (migrations : list migration) (db : conn D) :
  snd (withTx drv inTx (migrateFunc execScript force migrations) db) <> Panic.
Proof.
  unfold withTx. destruct inTx; simpl.
  - destruct (beginErr drv); [done|].
    destruct (migrateFunc execScript force migrations (emit EvBeginTx db))
      as [tx r] eqn:E.
    apply migrateFunc_body in E as [Hnp _].
    destruct r as [[]|e|]; [destruct (commitErr drv)|destruct (rollbackErr drv)|]; done.
  - destruct (migrateFunc execScript force migrations db) as [q r] eqn:E.
    by apply migrateFunc_body in E as [Hnp _].
Qed.

(** X16. [migrate] panics exactly when its arguments are valid and the
    loader panics: neither [panic("unreachable")] of [runInTx] is ever
    reached, and nothing done on the database panics. *)
Theorem migrate_panics_iff {D : Type}
    (execScript : string -> database D -> database D * bool)
    (drv : driver) (fs : string -> directory)
    (rangeOrder : list migration -> list migration) (args : migrateArgs)
    (db : conn D) :
  snd (migrate execScript drv fs rangeOrder args db) = Panic
  <-> validate args.(RootArgs) false = None
      /\ parseMigrations rangeOrder (fs args.(RootArgs).(Migrations)) = Panic.
Proof.
  unfold migrate. destruct (validate args.(RootArgs) false) as [e|] eqn:Ev.
  - split; [done|]. by intros [? _].
  - destruct (parseMigrations rangeOrder _) as [migrations|e|]; simpl.
    + split; [|by intros [_ ?]]. intros H. exfalso.
      unfold rootArgs_withTx in H. destruct (openErr drv); [done|].
      destruct (validate_runInTx _ Ev) as [inTx Hr]. rewrite Hr in H.
      by apply withTx_migrateFunc_no_panic in H.
    + split; [done|]. by intros [_ ?].
    + done.
Qed.

(** X17. A directory that passes the [validate] command loads in
    [migrate]: with valid arguments and an open database, [migrate] gets
    to [withTx] with a migration set, whatever the orders of iteration
    over the map in the two commands. *)
Theorem validate_then_migrate {D : Type}
    (execScript : string -> database D -> database D * bool)
    (drv : driver) (fs : string -> directory)
    (order1 order2 : list migration -> list migration)
    (vargs : validateArgs) (args : migrateArgs) (db : conn D) :
  validateCommand fs order1 vargs = Ok tt ->
  args.(RootArgs) = vargs.(ValidateRootArgs) ->
  validate args.(RootArgs) false = None ->
  drv.(openErr) = false ->
  exists migrations inTx,
    parseMigrations order2 (fs args.(RootArgs).(Migrations)) = Ok migrations
    /\ runInTx args.(RootArgs) = Ok inTx
    /\ migrate execScript drv fs order2 args db
       = withTx drv inTx (migrateFunc execScript args.(Force) migrations)
           (if args.(Force) then db
            else emit (EvStderr "running in dry-run mode because '--force' was not provided")
                   db).
Proof.
  unfold validateCommand. intros Hv Ha Hvalid Ho. rewrite <- Ha in Hv.
  destruct (validate args.(RootArgs) true); [done|].
  assert (Hload : exists migrations,
             parseMigrations order2 (fs args.(RootArgs).(Migrations)) = Ok migrations).
  { unfold parseMigrations in *.
    destruct (ReadDir (fs args.(RootArgs).(Migrations))) as [entries|]; [|done].
    destruct (collectMigrations entries ∅); try done. eauto. }
  destruct Hload as [migrations Hp].
  destruct (validate_runInTx _ Hvalid) as [inTx Hr].
  exists migrations, inTx. repeat split; try done.
  unfold migrate, rootArgs_withTx. by rewrite Hvalid, Hp, Ho, Hr.
Qed.

Lemma validate_then_migrate_witness :
  exists migrations inTx,
    parseMigrations reverseOrder (Some [file "7_c.sql" "C"; file "001_a.sql" "A"])
    = Ok migrations
    /\ runInTx postgresArgs = Ok inTx
    /\ migrate journalExec healthy
         (fun _ => Some [file "7_c.sql" "C"; file "001_a.sql" "A"])
         reverseOrder (mkMigrateArgs postgresArgs true) (freshDb 0 false)
       = withTx healthy inTx (migrateFunc journalExec true migrations) (freshDb 0 false).
Proof.
  apply (validate_then_migrate journalExec healthy
           (fun _ => Some [file "7_c.sql" "C"; file "001_a.sql" "A"])
           sameOrder reverseOrder (mkValidateArgs postgresArgs)
           (mkMigrateArgs postgresArgs true) (freshDb 0 false)).
  - vm_compute. reflexivity.
  - reflexivity.
  - vm_compute. reflexivity.
  - reflexivity.
Defined.

Section CommandFacts.

Context {D : Type} (execScript : string -> database D -> database D * bool).

Lemma withTxValue_withTx (drv : driver) (inTx : bool)
    (f : conn D -> conn D * outcome unit) (db : conn D) :
  withTxValue drv inTx f db = withTx drv inTx f db.
Proof.
  unfold withTxValue, withTx. destruct inTx; simpl; [|done].
  destruct (beginErr drv); [done|].
  destruct (f (emit EvBeginTx db)) as [tx [[]|e|]]; done.
Qed.

Lemma withTx_force_Ok_executed (drv : driver) (inTx : bool) (migrations : list migration)
    (db db' : conn D) :
  withTx drv inTx (migrateFunc execScript true migrations) db = (db', Ok tt) ->
  exists s rows,
    stateTable (store db) = Some (s :: rows)
    /\ s.(state_dirty) = false
    /\ executedScripts (trace db')
       = executedScripts (trace db) ++ map query (advance migrations s.(state_version)).
Proof.
  intros H. unfold withTx in H. destruct inTx; simpl in H.
  - destruct (beginErr drv); [done|].
    destruct (migrateFunc execScript true migrations (emit EvBeginTx db))
      as [tx r] eqn:E.
    destruct r as [[]|e|]; [|by destruct (rollbackErr drv)|done].
    destruct (commitErr drv); [done|]. inversion H; subst.
    apply migrateFunc_force_Ok in E as (s & rows & Ht & Hd & Hex).
    exists s, rows. split; [done|]. split; [done|]. simpl in *.
    rewrite executedScripts_app, Hex, executedScripts_app. simpl.
    by rewrite !app_nil_r.
  - by apply migrateFunc_force_Ok in H.
Qed.

(** What [reset] leaves when it succeeds. *)
Lemma reset_Ok (drv : driver) (args : resetArgs) (db db' : conn D) :
  reset execScript drv args db = (db', Ok tt) ->
  exists rows,
    stateTable (store db) = Some rows
    /\ store db'
       = mkDatabase
           (Some (map (fun _ => mkState (uintToInt args.(Version)) args.(Dirty)) rows))
           (userData (store db)).
Proof.
  unfold reset, rootArgs_withTx. destruct (validate _ false); [done|].
  destruct (openErr drv); [done|]. destruct (runInTx _) as [inTx|e|]; try done.
  unfold withTx. destruct inTx; simpl.
  - destruct (beginErr drv); [done|].
    destruct (stateTable (store db)) as [rows|] eqn:Et.
    + rewrite (setState_rows execScript (emit EvBeginTx db) _ rows Et).
      destruct (commitErr drv); [done|]. intros [= <-]. by exists rows.
    + unfold setState, ExecContext. simpl. rewrite Et. by destruct (rollbackErr drv).
  - destruct (stateTable (store db)) as [rows|] eqn:Et.
    + rewrite (setState_rows execScript db _ rows Et). intros [= <-]. by exists rows.
    + unfold setState, ExecContext. simpl. by rewrite Et.
Qed.

End CommandFacts.

(** ** [reset] and [status] *)

Lemma uintToInt_small (u : Z) : 0 <= u <= Go.maxInt -> uintToInt u = u.
Proof.
  unfold uintToInt, Go.maxInt, Go.intSize. intros H. cbv zeta.
  rewrite Z.mod_small by lia. destruct (Z.leb_spec u (2 ^ (64 - 1) - 1)); lia.
Qed.

Lemma uintToInt_large (u : Z) :
  Go.maxInt < u < 2 ^ Go.intSize -> uintToInt u = u - 2 ^ Go.intSize.
Proof.
  unfold uintToInt, Go.maxInt, Go.intSize. intros H. cbv zeta.
  rewrite Z.mod_small by lia. destruct (Z.leb_spec u (2 ^ (64 - 1) - 1)); lia.
Qed.

(** X18. With valid arguments, an open database and a state table of
    at least one row, [reset] succeeds when its transaction, if any, can
    be opened and committed; [getState] then returns the version and the
    dirty flag given, whatever the table held before, and the rest of
    the database is untouched.  The version stored is the [uint] given
    when it is at most the largest [int], and that number less 2^64, a
    negative version, above it. *)
Theorem reset_then_getState {D : Type}
    (execScript : string -> database D -> database D * bool)
    (drv : driver) (args : resetArgs) (db : conn D) (row : state) (rows : list state) :
  validate args.(ResetRootArgs) false = None ->
  drv.(openErr) = false ->
  drv.(beginErr) = false -> drv.(commitErr) = false ->
  stateTable (store db) = Some (row :: rows) ->
  snd (reset execScript drv args db) = Ok tt
  /\ snd (getState (fst (reset execScript drv args db)))
     = Ok (mkState (uintToInt args.(Version)) args.(Dirty))
  /\ userData (store (fst (reset execScript drv args db))) = userData (store db)
  /\ (0 <= args.(Version) <= Go.maxInt -> uintToInt args.(Version) = args.(Version))
  /\ (Go.maxInt < args.(Version) < 2 ^ Go.intSize ->
      uintToInt args.(Version) = args.(Version) - 2 ^ Go.intSize).
Proof.
  intros Hv Ho Hb Hc Ht.
  assert (Hok : snd (reset execScript drv args db) = Ok tt).
  { unfold reset, rootArgs_withTx. rewrite Hv, Ho.
    destruct (validate_runInTx _ Hv) as [inTx ->].
    unfold withTx. destruct inTx; simpl.
    - rewrite Hb. rewrite (setState_rows execScript (emit EvBeginTx db) _ _ Ht).
      by rewrite Hc.
    - by rewrite (setState_rows execScript db _ _ Ht). }
  destruct (reset execScript drv args db) as [db' r] eqn:E. simpl in *. subst r.
  apply reset_Ok in E as (rows' & Ht' & Hs). rewrite Ht in Ht'. inversion Ht'; subst rows'.
  repeat split.
  - unfold getState, QueryRowContext. simpl. by rewrite Hs.
  - by rewrite Hs.
  - apply uintToInt_small.
  - apply uintToInt_large.
Qed.

Lemma reset_then_getState_witness :
  let run := reset journalExec healthy (mkResetArgs postgresArgs 5 false) (freshDb 3 true) in
  snd run = Ok tt
  /\ snd (getState (fst run)) = Ok (mkState (uintToInt 5) false)
  /\ userData (store (fst run)) = userData (store (freshDb 3 true))
  /\ (0 <= 5 <= Go.maxInt -> uintToInt 5 = 5)
  /\ (Go.maxInt < 5 < 2 ^ Go.intSize -> uintToInt 5 = 5 - 2 ^ Go.intSize).
Proof.
  apply (reset_then_getState journalExec healthy (mkResetArgs postgresArgs 5 false)
           (freshDb 3 true) (mkState 3 true) []).
  - vm_compute. reflexivity.
  - reflexivity.
  - reflexivity.
  - reflexivity.
  - reflexivity.
Defined.

(** X19. [reset] is the way out of a dirty state: after a [reset] to a
    clean version on a state table of one row, whatever it held, a
    forced run of [migrate] that succeeds has executed the scripts of
    exactly the migrations above the version given to [reset]. *)
Theorem reset_then_migrate {D : Type}
    (execScript : string -> database D -> database D * bool)
    (drv1 drv2 : driver) (inTx2 : bool) (args : resetArgs)
    (migrations : list migration) (row : state) (db db1 db2 : conn D) :
  StronglySorted Z.lt (map version migrations) ->
  stateTable (store db) = Some [row] ->
  args.(Dirty) = false ->
  reset execScript drv1 args db = (db1, Ok tt) ->
  withTx drv2 inTx2 (migrateFunc execScript true migrations) db1 = (db2, Ok tt) ->
  executedScripts (trace db2)
  = executedScripts (trace db1)
    ++ map query (specPending migrations (uintToInt args.(Version))).
Proof.
  intros Hsorted Ht Hd H1 H2.
  apply reset_Ok in H1 as (rows & Ht' & Hs). rewrite Ht in Ht'. inversion Ht'; subst rows.
  apply withTx_force_Ok_executed in H2 as (s & rows & Ht2 & _ & Hex).
  rewrite Hs in Ht2. simpl in Ht2. inversion Ht2; subst.
  unfold specPending. by rewrite <- (advance_filter _ _ Hsorted).
Qed.

Lemma reset_then_migrate_witness :
  let db1 := fst (reset journalExec healthy (mkResetArgs postgresArgs 1 false)
                    (fst failedRun)) in
  let db2 := fst (withTx healthy false (migrateFunc journalExec true threeMigrations) db1) in
  executedScripts (trace db2)
  = executedScripts (trace db1) ++ map query (specPending threeMigrations (uintToInt 1)).
Proof.
  apply (reset_then_migrate journalExec healthy healthy false
           (mkResetArgs postgresArgs 1 false) threeMigrations (mkState 1 true)
           (fst failedRun)).
  - repeat constructor.
  - vm_compute. reflexivity.
  - reflexivity.
  - vm_compute. reflexivity.
  - vm_compute. reflexivity.
Defined.

(** X20. With valid arguments, an open database and a state table of
    at least one row, [status] prints one line, the one of the first
    row, when its transaction, if any, can be opened and committed; it
    runs no statement but the read and leaves the database as it was. *)
Theorem status_prints_state {D : Type}
    (drv : driver) (args : statusArgs) (db : conn D) (s : state) (rows : list state) :
  validate args.(StatusRootArgs) false = None ->
  drv.(openErr) = false ->
  drv.(beginErr) = false -> drv.(commitErr) = false ->
  stateTable (store db) = Some (s :: rows) ->
  snd (status drv args db) = Ok tt
  /\ printed (trace (fst (status drv args db))) = printed (trace db) ++ [statusLine s]
  /\ executedScripts (trace (fst (status drv args db))) = executedScripts (trace db)
  /\ stateWrites (trace (fst (status drv args db))) = stateWrites (trace db)
  /\ store (fst (status drv args db)) = store db.
Proof.
  intros Hv Ho Hb Hc Ht. unfold status, rootArgs_withTxValue. rewrite Hv, Ho.
  destruct (validate_runInTx _ Hv) as [inTx ->].
  unfold withTxValue. destruct inTx; simpl.
  - rewrite Hb. rewrite (getState_row (emit EvBeginTx db) s rows Ht). rewrite Hc. simpl.
    rewrite !printed_app, !executedScripts_app, !stateWrites_app. simpl.
    by rewrite !app_nil_r.
  - rewrite (getState_row db s rows Ht). simpl.
    rewrite !printed_app, !executedScripts_app, !stateWrites_app. simpl.
    by rewrite !app_nil_r.
Qed.

Lemma status_prints_state_witness :
  let run := status healthy (mkStatusArgs postgresArgs) (freshDb 3 true) in
  snd run = Ok tt
  /\ printed (trace (fst run)) = printed (trace (freshDb 3 true)) ++ [statusLine (mkState 3 true)]
  /\ executedScripts (trace (fst run)) = executedScripts (trace (freshDb 3 true))
  /\ stateWrites (trace (fst run)) = stateWrites (trace (freshDb 3 true))
  /\ store (fst run) = store (freshDb 3 true).
Proof.
  apply (status_prints_state healthy (mkStatusArgs postgresArgs) (freshDb 3 true)
           (mkState 3 true) []).
  - vm_compute. reflexivity.
  - reflexivity.
  - reflexivity.
  - reflexivity.
  - reflexivity.
Defined.

Lemma noParen_app (a b : string) :
  noParen (a ++ b)%string = noParen a && noParen b.
Proof.
  induction a as [|c a IH]; [done|]. simpl_append. simpl. by rewrite IH, andb_assoc.
Qed.

Lemma noParen_formatInt (z : Z) : noParen (formatInt z) = true.
Proof.
  unfold formatInt.
  assert (H : forall d, noParen (NilEmpty.string_of_uint d) = true)
    by (induction d; simpl; done).
  destruct (Z.to_int z); simpl; apply H.
Qed.

Lemma formatInt_inj (z1 z2 : Z) : formatInt z1 = formatInt z2 -> z1 = z2.
Proof.
  unfold formatInt. intros H. apply DecimalZ.to_int_inj.
  assert (Hs : Some (Z.to_int z1) = Some (Z.to_int z2))
    by (by rewrite <- !NilEmpty.isi, H).
  by inversion Hs.
Qed.

Lemma append_length (a b : string) :
  String.length (a ++ b)%string = (String.length a + String.length b)%nat.
Proof. induction a as [|c a IH]; [done|]. simpl_append. simpl. by rewrite IH. Qed.

(** X21. The line [status] prints tells the state: two states with the
    same line have the same version and the same dirty flag. *)
Theorem statusLine_inj (s1 s2 : state) : statusLine s1 = statusLine s2 -> s1 = s2.
Proof.
  destruct s1 as [v1 [|]], s2 as [v2 [|]]; unfold statusLine; simpl; intros H.
  - f_equal. apply formatInt_inj.
    apply (append_same_length _ _ " (dirty)" " (dirty)" H).
    apply (f_equal String.length) in H. rewrite !append_length in H. lia.
  - exfalso. apply (f_equal noParen) in H.
    rewrite noParen_app, !noParen_formatInt in H. done.
  - exfalso. apply (f_equal noParen) in H.
    rewrite noParen_app, !noParen_formatInt in H. done.
  - f_equal. by apply formatInt_inj.
Qed.

Lemma statusLine_inj_witness : mkState 7 true = mkState 7 true.
Proof. apply (statusLine_inj (mkState 7 true) (mkState 7 true)). reflexivity. Defined.
